(** * ADF z-test critical values: simulation on a large cluster

    A shallow embedding of
    [arch/unitroot/critical_values/simulation/adf_z_critical_values_simulation_large_cluster.py]
    and the properties of its three layers:

    - [adf_simulation], the statistic generator (numpy code);
    - [wrapper], the memory-bounded batch runner;
    - the driver loop with [clear_cache], the percentile reduction and the
      checkpoints written by [savez].

    Floating-point numbers are kept abstract (class [Arith]): the numpy
    code is embedded over any carrier with the four operations, so that
    every structural theorem holds for IEEE binary64 in particular.  The
    instance [arith_prim] (Rocq's primitive binary64 floats) is used to
    evaluate the embedding on concrete inputs, and the instance [arith_Q]
    (exact rationals) where a property rests on the laws of an ordered
    field. *)

From Stdlib Require Import String ZArith List Bool Lia Floats QArith Qround Lqa Sorted.
Local Open Scope list_scope.
Import ListNotations.

Local Open Scope Z_scope.


(** ** Python exceptions and results *)

Inductive py_error : Type :=
| ValueError
| ZeroDivisionError
| AssertionError.

Inductive result (A : Type) : Type :=
| Ok (a : A)
| Raise (e : py_error).

Arguments Ok {A} a.
Arguments Raise {A} e.

(** ** Double-precision numbers

    The operations numpy applies elementwise.  No algebraic law is assumed:
    additions are performed in the order the code performs them. *)

Class Arith (F : Type) : Type := {
  fzero : F;
  fone : F;
  fadd : F -> F -> F;
  fsub : F -> F -> F;
  fmul : F -> F -> F;
  fdiv : F -> F -> F;
  of_int : Z -> F
}.

(** The not-a-number value, with the one fact the driver relies on: the
    product [0.0 * nan] is not a number. *)
Class Float64 (F : Type) `{Arith F} : Type := {
  fnan : F;
  fisnan : F -> bool;
  fmul_zero_nan : fisnan (fmul fzero fnan) = true
}.

Definition float_of_Z (z : Z) : float :=
  match z with
  | Z0 => PrimFloat.zero
  | Zpos _ => PrimFloat.of_uint63 (Uint63.of_Z z)
  | Zneg p => PrimFloat.opp (PrimFloat.of_uint63 (Uint63.of_Z (Zpos p)))
  end.

(** IEEE binary64, as Rocq's kernel computes it. *)
#[export] Instance arith_prim : Arith float := {
  fzero := PrimFloat.zero;
  fone := PrimFloat.one;
  fadd := PrimFloat.add;
  fsub := PrimFloat.sub;
  fmul := PrimFloat.mul;
  fdiv := PrimFloat.div;
  of_int := float_of_Z
}.

#[export] Instance float64_prim : Float64 float := {
  fnan := PrimFloat.nan;
  fisnan := PrimFloat.is_nan;
  fmul_zero_nan := eq_refl
}.

(** Exact rational arithmetic. *)
#[export] Instance arith_Q : Arith Q := {
  fzero := 0%Q;
  fone := 1%Q;
  fadd := Qplus;
  fsub := Qminus;
  fmul := Qmult;
  fdiv := Qdiv;
  of_int := inject_Z
}.

(** ** Python helpers *)

(** [range(start, stop, step)]: a zero step raises, otherwise the length is
    the one CPython computes. *)
Definition range_len (start stop step : Z) : Z :=
  if (0 <? step) && (start <? stop) then 1 + (stop - 1 - start) / step
  else if (step <? 0) && (stop <? start) then 1 + (start - 1 - stop) / (- step)
  else 0.

Definition py_range (start stop step : Z) : result (list Z) :=
  if step =? 0 then Raise ValueError
  else Ok (map (fun k => start + Z.of_nat k * step)
               (seq 0 (Z.to_nat (range_len start stop step)))).

(** [arange(a, b)] on integers. *)
Definition int_arange (a b : Z) : list Z :=
  map (fun k => a + Z.of_nat k) (seq 0 (Z.to_nat (b - a))).

(** A slice bound [i] of a sequence of length [len], as Python normalises it. *)
Definition slice_bound (len i : Z) : Z :=
  if i <? 0 then Z.max 0 (i + len) else Z.min i len.

Fixpoint zip_with {A B C} (f : A -> B -> C) (xs : list A) (ys : list B) : list C :=
  match xs, ys with
  | x :: xs', y :: ys' => f x y :: zip_with f xs' ys'
  | _, _ => []
  end.

(** ** numpy arrays

    A one-dimensional array is a list; a two-dimensional array is the list
    of its rows (C order).  An array with no row does not record its number
    of columns, so the reductions that need it take it as an argument. *)

Section Numpy.
Context {F : Type} `{Arith F}.

Local Abbreviation vec := (list F).
Local Abbreviation matrix := (list (list F)).

Definition zeros (k : nat) : vec := repeat fzero k.
Definition ones (k : nat) : vec := repeat fone k.

(** [zeros(b)], [ones(b)] with the shape check of numpy. *)
Definition np_zeros (b : Z) : result vec :=
  if b <? 0 then Raise ValueError else Ok (zeros (Z.to_nat b)).
Definition np_ones (b : Z) : result vec :=
  if b <? 0 then Raise ValueError else Ok (ones (Z.to_nat b)).

(** [ones((r, 1))]. *)
Definition np_ones_col (r : Z) : result matrix :=
  if r <? 0 then Raise ValueError else Ok (repeat [fone] (Z.to_nat r)).

Definition arange (a b : Z) : vec := map of_int (int_arange a b).

(** Column [j] of a matrix. *)
Definition col (j : nat) (m : matrix) : vec := map (fun r => nth j r fzero) m.

(** [m.T] for a matrix with [cols] columns. *)
Definition transpose (cols : nat) (m : matrix) : matrix :=
  map (fun j => col j m) (seq 0 cols).

Definition vadd : vec -> vec -> vec := zip_with fadd.
Definition vsub : vec -> vec -> vec := zip_with fsub.
Definition vmul : vec -> vec -> vec := zip_with fmul.
Definition vdiv : vec -> vec -> vec := zip_with fdiv.

Definition msub : matrix -> matrix -> matrix := zip_with vsub.
Definition mmul : matrix -> matrix -> matrix := zip_with vmul.

(** [x ** 2.0], elementwise. *)
Definition fsquare (x : F) : F := fmul x x.
Definition msquare (m : matrix) : matrix := map (map fsquare) m.

(** [cumsum(y, axis=0)]: running sums of the rows. *)
Fixpoint cumsum_from (acc : vec) (m : matrix) : matrix :=
  match m with
  | [] => []
  | r :: m' => let acc' := vadd acc r in acc' :: cumsum_from acc' m'
  end.

Definition cumsum (m : matrix) : matrix :=
  match m with
  | [] => []
  | r :: m' => r :: cumsum_from r m'
  end.

(** [sum(m, 0)]: the rows are added one after the other to an array of
    zeros, as [add.reduce] does for numbers. *)
Definition sum_axis0 (cols : nat) (m : matrix) : vec :=
  fold_left vadd m (zeros cols).

(** The inner product of two vectors, accumulated from the left (the order
    in which the linear algebra library adds the products is its own). *)
Definition inner (u v : vec) : F := fold_left fadd (vmul u v) fzero.

(** [dot(a, b)] where [b] has [cols] columns.  Shapes that do not fit make
    numpy raise; they do not arise when [pinv] returns an array of the
    shape of the transpose, and are not checked. *)
Definition dot (cols : nat) (a b : matrix) : matrix :=
  map (fun row => map (fun j => inner row (col j b)) (seq 0 cols)) a.

(** Sum of a vector, accumulated from the left. *)
Definition vsum (v : vec) : F := fold_left fadd v fzero.

(** Every row of [m] has [cols] entries. *)
Definition shaped (cols : nat) (m : matrix) : Prop :=
  Forall (fun r => length r = cols) m.

End Numpy.

(** ** The random number generators of an engine

    A generator is a seed and the number of normal deviates drawn since it
    was seeded.  The stream of deviates a seed gives (Mersenne Twister and
    the polar method) is a parameter, [normal_stream]. *)

Record RandomState : Type := {
  rs_key : Z;
  rs_drawn : Z
}.

(** The state of one engine: numpy's global generator, the [RandomState]
    objects allocated so far (a reference is an index), the seed an
    unseeded [RandomState()] takes from the operating system, and a ghost
    log of the [rng] argument of every call of [adf_simulation]. *)
Record Engine : Type := {
  np_random : RandomState;
  heap : list RandomState;
  os_entropy : Z;
  adf_calls : list (option nat)
}.

(** The generator a call draws from. *)
Inductive generator : Type :=
| GlobalGen
| Obj (r : nat).

(** Code that updates a state of type [S] and may raise. *)
Definition St (S A : Type) : Type := S -> result A * S.

Definition ret {S A} (a : A) : St S A := fun e => (Ok a, e).

Definition bind {S A B} (c : St S A) (k : A -> St S B) : St S B :=
  fun e =>
    match c e with
    | (Ok a, e') => k a e'
    | (Raise err, e') => (Raise err, e')
    end.

Definition lift {S A} (r : result A) : St S A := fun e => (r, e).

Definition M : Type -> Type := St Engine.

Notation "x <- c ;; k" := (bind c (fun x => k))
  (at level 61, c at next level, right associativity).
Notation "c ;;; k" := (bind c (fun _ => k))
  (at level 61, right associativity).

Fixpoint for_each {W A S} (xs : list A) (body : A -> S -> St W S) (s : S)
  : St W S :=
  match xs with
  | [] => ret s
  | x :: xs' => s' <- body x s ;; for_each xs' body s'
  end.

Fixpoint list_set {A} (i : nat) (v : A) (l : list A) : list A :=
  match l, i with
  | [], _ => []
  | _ :: l', O => v :: l'
  | x :: l', S i' => x :: list_set i' v l'
  end.

Definition seeded (s : Z) : RandomState := {| rs_key := s; rs_drawn := 0 |}.

Definition get_gen (g : generator) (e : Engine) : RandomState :=
  match g with
  | GlobalGen => np_random e
  | Obj r => nth r (heap e) (seeded 0)
  end.

Definition set_gen (g : generator) (s : RandomState) (e : Engine) : Engine :=
  match g with
  | GlobalGen =>
      {| np_random := s; heap := heap e; os_entropy := os_entropy e;
         adf_calls := adf_calls e |}
  | Obj r =>
      {| np_random := np_random e; heap := list_set r s (heap e);
         os_entropy := os_entropy e; adf_calls := adf_calls e |}
  end.

(** [RandomState()]: a new object, seeded by the operating system. *)
Definition RandomState_new : M nat :=
  fun e =>
    (Ok (length (heap e)),
     {| np_random := np_random e; heap := heap e ++ [seeded (os_entropy e)];
        os_entropy := os_entropy e; adf_calls := adf_calls e |}).

(** [rng.seed(s)] and [numpy.random.seed(s)] (the range of a seed is not
    checked here: the seeds of line 133 are in range). *)
Definition rs_seed (g : generator) (s : Z) : M unit :=
  fun e => (Ok tt, set_gen g (seeded s) e).

Definition log_call (rng : option nat) : M unit :=
  fun e =>
    (Ok tt,
     {| np_random := np_random e; heap := heap e; os_entropy := os_entropy e;
        adf_calls := adf_calls e ++ [rng] |}).

(** ** The simulation: [adf_simulation] and [wrapper] *)

Section Simulation.
Context {F : Type} `{Arith F}.

(** [normal_stream s k]: the [k]-th standard normal deviate of a generator
    seeded with [s]. *)
Variable normal_stream : Z -> Z -> F.

(** [numpy.linalg.pinv]. *)
Variable pinv : list (list F) -> list (list F).

(** A [rows] x [cols] array filled in C order from stream position [p]. *)
Definition normal_matrix (key p : Z) (rows cols : nat) : list (list F) :=
  map (fun i =>
         map (fun j => normal_stream key (p + Z.of_nat i * Z.of_nat cols + Z.of_nat j))
             (seq 0 cols))
      (seq 0 rows).

(** [standard_normal((rows, cols))] of generator [g]. *)
Definition standard_normal (g : generator) (rows cols : Z) : M (list (list F)) :=
  fun e =>
    if (rows <? 0) || (cols <? 0) then (Raise ValueError, e)
    else
      let s := get_gen g e in
      (Ok (normal_matrix (rs_key s) (rs_drawn s) (Z.to_nat rows) (Z.to_nat cols)),
       set_gen g {| rs_key := rs_key s; rs_drawn := rs_drawn s + rows * cols |} e).

(** Lines 87-95: the regressors [z], or [None]. *)
Definition regressors (trend : string) (nobs : Z) : result (option (list (list F))) :=
  if String.eqb trend "c" then
    match np_ones_col nobs with
    | Ok z => Ok (Some z)
    | Raise err => Raise err
    end
  else if String.eqb trend "ct" then
    match np_ones nobs with
    | Ok o => Ok (Some (transpose (Z.to_nat nobs) [o; arange 1 (nobs + 1)]))
    | Raise err => Raise err
    end
  else if String.eqb trend "ctt" then
    let tau := int_arange 1 (nobs + 1) in
    match np_ones nobs with
    | Ok o =>
        Ok (Some (transpose (Z.to_nat nobs)
                    [o; map of_int tau; map (fun t => fsquare (of_int t)) tau]))
    | Raise err => Raise err
    end
  else Ok None.

(** Lines 98-99: the random walks after the burn-in. *)
Definition paths (y : list (list F)) : list (list F) := skipn 50 (cumsum y).

(** Lines 100-101: [y[1:, :]] and [y[:-1, :]]. *)
Definition lead (y : list (list F)) : list (list F) := tl y.
Definition lag (y : list (list F)) : list (list F) := removelast y.

(** Lines 103-107 for one side: [x - dot(z, dot(pinv(z), x))]. *)
Definition residual (cols : nat) (z x : list (list F)) : list (list F) :=
  let z_inv := pinv z in
  let beta := dot cols z_inv x in
  msub x (dot cols z beta).

Definition detrend (cols : nat) (z : option (list (list F))) (x : list (list F))
  : list (list F) :=
  match z with
  | Some z' => residual cols z' x
  | None => x
  end.

(** The two series of the regression, for the normal draws [y0]. *)
Definition adf_lhs (cols : nat) (z : option (list (list F))) (y0 : list (list F)) :=
  detrend cols z (lead (paths y0)).
Definition adf_rhs (cols : nat) (z : option (list (list F))) (y0 : list (list F)) :=
  detrend cols z (lag (paths y0)).

(** Lines 109-114. *)
Definition adf_stat (cols : nat) (lhs rhs : list (list F)) : list F :=
  let xpy := sum_axis0 cols (mmul rhs lhs) in
  let xpx := sum_axis0 cols (msquare rhs) in
  let gamma := vdiv xpy xpx in
  let nobs := Z.of_nat (length lhs) in
  map (fun g => fmul (of_int nobs) (fsub g fone)) gamma.

Definition adf_simulation (n : Z) (trend : string) (b : Z) (rng : option nat)
  : M (list F) :=
  log_call rng ;;;
  g <- match rng with
       | None => rs_seed GlobalGen 0 ;;; ret GlobalGen
       | Some r => ret (Obj r)
       end ;;
  let nobs := n - 1 in
  z <- lift (regressors trend nobs) ;;
  y <- standard_normal g (n + 50) b ;;
  let cols := Z.to_nat b in
  let lhs := adf_lhs cols z y in
  let rhs := adf_rhs cols z y in
  ret (adf_stat cols lhs rhs).

(** [res[st:en] = v] on a one-dimensional array. *)
Definition slice_assign (res : list F) (st en : Z) (v : list F) : result (list F) :=
  let len := Z.of_nat (length res) in
  let lo := slice_bound len st in
  let hi := Z.max lo (slice_bound len en) in
  let k := Z.to_nat (hi - lo) in
  if Nat.eqb (length v) k then
    Ok (firstn (Z.to_nat lo) res ++ v ++ skipn (Z.to_nat hi) res)
  else if Nat.eqb (length v) 1 then
    Ok (firstn (Z.to_nat lo) res ++ repeat (hd fzero v) k ++ skipn (Z.to_nat hi) res)
  else Raise ValueError.

(** Line 62: [int(2 ** 20.0 * MAX_MEMORY_SIZE / (8.0 * n))] for an integer
    budget and a Python integer [n].  [int] truncates towards zero, and the
    double quotient of two integers whose sum is below [2 ** 53] truncates
    to their integer quotient; a zero divisor raises. *)
Definition block_size (MAX_MEMORY_SIZE n : Z) : result Z :=
  if n =? 0 then Raise ZeroDivisionError
  else Ok (Z.quot (2 ^ 20 * MAX_MEMORY_SIZE) (8 * n)).

(** The local variables the loop of [wrapper] updates. *)
Record locals : Type := {
  res : list F;
  finished : Z;
  remaining : Z
}.

(** Lines 64-72, one block; [rng] is the reference held by [wrapper]. *)
Definition wrapper_block (n : Z) (trend : string) (bs : Z) (rng : nat)
    (j : Z) (l : locals) : M locals :=
  let count := if bs <? remaining l then bs else remaining l in
  let st := finished l in
  let en := finished l + count in
  v <- adf_simulation n trend count (Some rng) ;;
  res' <- lift (slice_assign (res l) st en v) ;;
  ret {| res := res'; finished := finished l + count;
         remaining := remaining l - count |}.

Definition wrapper (MAX_MEMORY_SIZE : Z) (n : Z) (trend : string) (b : Z)
    (rng_seed : Z) : M (list F) :=
  rng <- RandomState_new ;;
  rs_seed (Obj rng) rng_seed ;;;
  let remaining0 := b in
  res0 <- lift (np_zeros b) ;;
  let finished0 := 0 in
  bs <- lift (block_size MAX_MEMORY_SIZE n) ;;
  js <- lift (py_range 0 b bs) ;;
  l <- for_each js (wrapper_block n trend bs rng)
         {| res := res0; finished := finished0; remaining := remaining0 |} ;;
  ret (res l).

End Simulation.

(** ** The statistic as the specification words it

    For the lagged series [lag] and the series [lead] of one column:
    [nobs * (cov(lag, lead) / var(lag) - 1)], the sums running over time. *)

Section Statistic.
Context {F : Type} `{Arith F}.

Definition raw_cov (lag lead : list F) : F := vsum (vmul lag lead).
Definition raw_var (lag : list F) : F := vsum (vmul lag lag).

Definition z_statistic (lag lead : list F) : F :=
  fmul (of_int (Z.of_nat (length lead)))
       (fsub (fdiv (raw_cov lag lead) (raw_var lag)) fone).

(** Line 131: [list(arange(0.5, 100.0, 0.5))], the levels [0.5 + k * 0.5]. *)
Definition fhalf : F := fdiv fone (of_int 2).
Definition percentiles : list F :=
  map (fun k => fadd fhalf (fmul (of_int (Z.of_nat k)) fhalf)) (seq 0 199).

End Statistic.

(** ** One column at a time

    The same computation seen from one column of the normal draws: what
    [adf_simulation] returns at position [j] only depends on column [j]. *)

Section Columns.
Context {F : Type} `{Arith F}.

Variable normal_stream : Z -> Z -> F.
Variable pinv : list (list F) -> list (list F).

(** The running sums of a series: [cumsum] on one column. *)
Fixpoint running_from (acc : F) (x : list F) : list F :=
  match x with
  | [] => []
  | a :: x' => let acc' := fadd acc a in acc' :: running_from acc' x'
  end.

Definition running_sum (x : list F) : list F :=
  match x with
  | [] => []
  | a :: x' => a :: running_from a x'
  end.

(** [dot(a, v)] for a vector [v]. *)
Definition mat_vec (a : list (list F)) (v : list F) : list F :=
  map (fun row => inner row v) a.

(** The residual of one series on the regressors [z]. *)
Definition residual_col (z : list (list F)) (v : list F) : list F :=
  vsub v (mat_vec z (mat_vec (pinv z) v)).

Definition detrend_col (z : option (list (list F))) (v : list F) : list F :=
  match z with
  | Some z' => residual_col z' v
  | None => v
  end.

(** The statistic of the random walk built from the normal draws [x]. *)
Definition column_statistic (z : option (list (list F))) (x : list F) : F :=
  let path := skipn 50 (running_sum x) in
  z_statistic (detrend_col z (removelast path)) (detrend_col z (tl path)).

(** Column [j] of a [rows] x [cols] array drawn at stream position [p]. *)
Definition normal_column (key p : Z) (rows cols j : nat) : list F :=
  map (fun i => normal_stream key (p + Z.of_nat i * Z.of_nat cols + Z.of_nat j))
      (seq 0 rows).

(** The statistics of one block of [b] columns, drawn at position [p] of
    the stream of [key]. *)
Definition block (z : option (list (list F))) (key p n b : Z) : list F :=
  let cols := Z.to_nat b in
  let y := normal_matrix normal_stream key p (Z.to_nat (n + 50)) cols in
  adf_stat cols (adf_lhs pinv cols z y) (adf_rhs pinv cols z y).

(** [k] successive blocks of at most [bs] columns, the first one at position
    [(n + 50) * fin], when [rem] statistics are still to be produced. *)
Fixpoint block_list (k : nat) (z : option (list (list F))) (key n bs fin rem : Z)
  : list F :=
  match k with
  | O => []
  | S k' =>
      let count := if bs <? rem then bs else rem in
      block z key ((n + 50) * fin) n count
        ++ block_list k' z key n bs (fin + count) (rem - count)
  end.

(** The generator a call of [adf_simulation] draws from: its handle, its
    state when the draws start, and the draws. *)
Definition target_of (rng : option nat) : generator :=
  match rng with
  | None => GlobalGen
  | Some r => Obj r
  end.

Definition source_of (rng : option nat) (e : Engine) : RandomState :=
  match rng with
  | None => seeded 0
  | Some r => get_gen (Obj r) e
  end.

(** [rng] is [None] or an object of the engine. *)
Definition allocated (rng : option nat) (e : Engine) : Prop :=
  match rng with
  | None => True
  | Some r => (r < length (heap e))%nat
  end.

Definition draws (n b : Z) (rng : option nat) (e : Engine) : list (list F) :=
  let s := source_of rng e in
  normal_matrix normal_stream (rs_key s) (rs_drawn s)
    (Z.to_nat (n + 50)) (Z.to_nat b).

End Columns.

(** ** The cluster: [rc], its views, and [clear_cache] *)

(** What the driver holds of an IPython.parallel [Client]: the ids of the
    tasks still running, the cached results and metadata, the history of
    submitted ids, the digests seen by the session, and the records the
    controller keeps for this client. *)
Record Client (F : Type) : Type := {
  outstanding : list nat;
  c_results : list (nat * list F);
  c_metadata : list nat;
  c_history : list nat;
  digest_history : list nat;
  controller_db : list nat;
  next_id : nat
}.

Record View (F : Type) : Type := {
  v_results : list (nat * list F);
  v_history : list nat
}.

Arguments outstanding {F} _.
Arguments c_results {F} _.
Arguments c_metadata {F} _.
Arguments c_history {F} _.
Arguments digest_history {F} _.
Arguments controller_db {F} _.
Arguments next_id {F} _.
Arguments v_results {F} _.
Arguments v_history {F} _.

(** What [savez] writes. *)
Record artifact (F : Type) : Type := {
  a_trend : string;
  a_results : list (list (list F));
  a_percentiles : list F;
  a_T : list Z
}.

Arguments a_trend {F} _.
Arguments a_results {F} _.
Arguments a_percentiles {F} _.
Arguments a_T {F} _.

(** The driver process: the client and view objects (a reference is an
    index) and the files written. *)
Record Driver (F : Type) : Type := {
  clients : list (Client F);
  views : list (View F);
  disk : list (string * artifact F)
}.

Arguments clients {F} _.
Arguments views {F} _.
Arguments disk {F} _.

(** The module-level names [rc], [dview] and [lview]. *)
Definition rc : nat := 0%nat.
Definition dview : nat := 0%nat.
Definition lview : nat := 1%nat.

(** The constants at the head of the file. *)
Record Config : Type := {
  EX_NUM : nat;
  EX_SIZE : Z;
  MAX_MEMORY_SIZE : Z;
  trends : list string;
  T : list Z
}.

Definition source_config : Config := {|
  EX_NUM := 500;
  EX_SIZE := 200000;
  MAX_MEMORY_SIZE := 100;
  trends := ["nc"; "c"; "ct"; "ctt"]%string;
  T := rev [20; 25; 30; 35; 40; 45; 50; 60; 70; 80; 90; 100; 120; 140; 160;
            180; 200; 250; 300; 350; 400; 450; 500; 600; 700; 800; 900;
            1000; 1200; 1400; 2000]
|}.

(** One call [wrapper(n, trend, b, rng_seed)]. *)
Definition task : Type := (Z * string * Z * Z)%type.

Fixpoint zip4 {A B C D} (a : list A) (b : list B) (c : list C) (d : list D)
  : list (A * B * C * D) :=
  match a, b, c, d with
  | x :: a', y :: b', z :: c', w :: d' => (x, y, z, w) :: zip4 a' b' c' d'
  | _, _, _, _ => []
  end.

(** Lines 147-148: the calls [map_async] submits for length [t] and trend
    [tr]: [[t] * EX_NUM], [[tr] * EX_NUM], [[EX_SIZE] * EX_NUM] and [seeds],
    taken position by position. *)
Definition map_async_args (cfg : Config) (t : Z) (tr : string) (seeds : list Z)
  : list task :=
  zip4 (repeat t (EX_NUM cfg)) (repeat tr (EX_NUM cfg))
       (repeat (EX_SIZE cfg) (EX_NUM cfg)) seeds.

(** The seed the replication [k] of the round ([tr], [i]) is given. *)
Definition seed_of (cfg : Config) (seeds : list Z) (tr : string) (i k : nat)
  : option Z :=
  match nth_error (T cfg) i with
  | Some t =>
      match nth_error (map_async_args cfg t tr seeds) k with
      | Some (_, _, _, s) => Some s
      | None => None
      end
  | None => None
  end.

Fixpoint mapM {A B} (f : A -> result B) (xs : list A) : result (list B) :=
  match xs with
  | [] => Ok []
  | x :: xs' =>
      match f x with
      | Ok y =>
          match mapM f xs' with
          | Ok ys => Ok (y :: ys)
          | Raise err => Raise err
          end
      | Raise err => Raise err
      end
  end.

Section DriverLoop.
Context {F : Type} `{Float64 F}.

Variable normal_stream : Z -> Z -> F.
Variable pinv : list (list F) -> list (list F).

(** [numpy.percentile(x, q)] for a list [q] of levels. *)
Variable percentile : list F -> list F -> list F.

(** [int_stream s k]: the [k]-th integer [random_integers(0, 2 ** 31 - 2)]
    returns after [seed(s)]. *)
Variable int_stream : Z -> nat -> Z.

(** The engine a task runs on. *)
Variable engine : Engine.

Variable cfg : Config.

Definition D : Type -> Type := St (Driver F).

Definition no_client : Client F :=
  {| outstanding := []; c_results := []; c_metadata := []; c_history := [];
     digest_history := []; controller_db := []; next_id := 0 |}.
Definition no_view : View F := {| v_results := []; v_history := [] |}.

Definition get_client (c : nat) (d : Driver F) : Client F := nth c (clients d) no_client.
Definition get_view (v : nat) (d : Driver F) : View F := nth v (views d) no_view.

Definition set_client (c : nat) (x : Client F) (d : Driver F) : Driver F :=
  {| clients := list_set c x (clients d); views := views d; disk := disk d |}.
Definition set_view (v : nat) (x : View F) (d : Driver F) : Driver F :=
  {| clients := clients d; views := list_set v x (views d); disk := disk d |}.

(** Lines 43-49 on the objects [client] and [view], as line 160 runs them:
    on the client [rc], which the assertion has found without a task
    outstanding. *)
Definition purge (client view : nat) (d : Driver F) : Driver F :=
  let c := get_client client d in
  let d1 :=
    set_client client
      {| outstanding := outstanding c;
         c_results := [];
         c_metadata := [];
         c_history := [];
         digest_history := [];
         controller_db := [];
         next_id := next_id c |} d in
  set_view view {| v_results := []; v_history := [] |} d1.

(** Lines 40-49.  The assertion reads the module-level [rc]. *)
Definition clear_cache (client view : nat) : D unit :=
  fun d =>
    match outstanding (get_client rc d) with
    | [] => (Ok tt, purge client view d)
    | _ :: _ => (Raise AssertionError, d)
    end.

(** Line 133, after [seed(0)]. *)
Definition seeds : list Z := map (int_stream 0) (seq 0 (EX_NUM cfg)).

(** A task on its engine. *)
Definition run_task (t : task) : result (list F) :=
  match t with
  | (n, trend, b, s) =>
      fst (wrapper normal_stream pinv (MAX_MEMORY_SIZE cfg) n trend b s engine)
  end.

(** [lview.map_async(wrapper, ...)]: the tasks get fresh ids, which are
    outstanding until the results arrive. *)
Definition map_async (view : nat) (ts : list task) : D (list nat) :=
  fun d =>
    let c := get_client rc d in
    let ids := seq (next_id c) (length ts) in
    let c' :=
      {| outstanding := outstanding c ++ ids;
         c_results := c_results c;
         c_metadata := c_metadata c;
         c_history := c_history c ++ ids;
         digest_history := digest_history c ++ ids;
         controller_db := controller_db c ++ ids;
         next_id := next_id c + length ts |} in
    let v := get_view view d in
    (Ok ids,
     set_view view {| v_results := v_results v; v_history := v_history v ++ ids |}
       (set_client rc c' d)).

(** Lines 149-158: [res.get()] once [res.ready()]: the tasks have run, their
    ids are no longer outstanding, and the results come in the order of
    submission.  A task that raised makes [get] raise.  The polling loop
    before it only sleeps and prints. *)
Definition get (view : nat) (ids : list nat) (ts : list task) : D (list (list F)) :=
  fun d =>
    let c := get_client rc d in
    let done :=
      {| outstanding := filter (fun i => negb (existsb (Nat.eqb i) ids)) (outstanding c);
         c_results := c_results c;
         c_metadata := c_metadata c ++ ids;
         c_history := c_history c;
         digest_history := digest_history c;
         controller_db := controller_db c;
         next_id := next_id c |} in
    match mapM run_task ts with
    | Ok out =>
        let c' :=
          {| outstanding := outstanding done;
             c_results := c_results c ++ combine ids out;
             c_metadata := c_metadata done;
             c_history := c_history done;
             digest_history := digest_history done;
             controller_db := controller_db done;
             next_id := next_id done |} in
        let v := get_view view d in
        (Ok out,
         set_view view
           {| v_results := v_results v ++ combine ids out; v_history := v_history v |}
           (set_client rc c' d))
    | Raise err => (Raise err, set_client rc done d)
    end.

(** Line 136: [zeros((len(percentiles), m, EX_NUM)) * nan]. *)
Definition sentinel : F := fmul fzero fnan.
Definition new_results (m : nat) : list (list (list F)) :=
  repeat (repeat (repeat sentinel (EX_NUM cfg)) m) (length (@percentiles F _)).

(** Line 164. *)
Definition quantiles (out : list (list F)) : list (list F) :=
  map (fun x => percentile x percentiles) out.

(** Line 165, right-hand side: [array(q).T] for the list [q] of the rows.
    Rows of different lengths do not make a two-dimensional array of
    numbers, and the assignment raises. *)
Definition np_array_T (q : list (list F)) : result (list (list F)) :=
  match q with
  | [] => Ok []
  | r :: _ =>
      if forallb (fun x => Nat.eqb (length x) (length r)) q
      then Ok (transpose (length r) q)
      else Raise ValueError
  end.

(** Line 165: [results[:, i, :] = a] for [a] of the shape of the slice; an
    index out of range or another shape raises. *)
Definition assign_length (results : list (list (list F))) (i : nat)
    (a : list (list F)) : result (list (list (list F))) :=
  if Nat.eqb (length a) (length results)
     && forallb (fun row => Nat.eqb (length row) (EX_NUM cfg)) a
     && forallb (fun plane => Nat.ltb i (length plane)) results
  then Ok (zip_with (fun plane row => list_set i row plane) results a)
  else Raise ValueError.

(** Lines 167-168: the file is replaced (the write is taken to succeed). *)
Definition savez (filename : string) (a : artifact F) : D unit :=
  fun d =>
    (Ok tt,
     {| clients := clients d; views := views d;
        disk := (filename, a) :: filter (fun e => negb (String.eqb (fst e) filename)) (disk d) |}).

Definition load (filename : string) (d : Driver F) : option (artifact F) :=
  match find (fun e => String.eqb (fst e) filename) (disk d) with
  | Some e => Some (snd e)
  | None => None
  end.

Definition filename_of (tr : string) : string := ("adf_z_" ++ tr ++ ".npz")%string.

(** Lines 139-168: the round for position [i] and length [t]. *)
Definition round (tr : string) (it : nat * Z) (results : list (list (list F)))
  : D (list (list (list F))) :=
  let (i, t) := it in
  let ts := map_async_args cfg t tr seeds in
  ids <- map_async lview ts ;;
  out <- get lview ids ts ;;
  clear_cache rc lview ;;;
  let q := quantiles out in
  a <- lift (np_array_T q) ;;
  results' <- lift (assign_length results i a) ;;
  savez (filename_of tr)
    {| a_trend := tr; a_results := results'; a_percentiles := percentiles;
       a_T := T cfg |} ;;;
  ret results'.

(** The rounds of one trend over the items [its] of [enumerate(T)]. *)
Definition rounds (tr : string) (its : list (nat * Z))
    (results : list (list (list F))) : D (list (list (list F))) :=
  for_each its (round tr) results.

Definition enumerate_T : list (nat * Z) := combine (seq 0 (length (T cfg))) (T cfg).

(** Lines 135-168 for one trend, and the whole loop. *)
Definition driver_trend (tr : string) : D (list (list (list F))) :=
  rounds tr enumerate_T (new_results (length (T cfg))).

Definition driver : D unit :=
  for_each (trends cfg) (fun tr _ => driver_trend tr ;;; ret tt) tt.

(** *** What the table holds

    The outputs of the round at position [i] of [T] for trend [tr] (no
    output when a task raises), the table once the rounds at the
    positions below [k] are done, and one cell of a table. *)
Definition outputs (tr : string) (i : nat) : list (list F) :=
  match nth_error (T cfg) i with
  | Some t =>
      match mapM run_task (map_async_args cfg t tr seeds) with
      | Ok out => out
      | Raise _ => []
      end
  | None => []
  end.

Definition table_after (tr : string) (k : nat) : list (list (list F)) :=
  map (fun p =>
         map (fun i =>
                if Nat.ltb i k
                then map (fun x => nth p x fzero) (quantiles (outputs tr i))
                else repeat sentinel (EX_NUM cfg))
             (seq 0 (length (T cfg))))
      (seq 0 (length (@percentiles F _))).

Definition cell (results : list (list (list F))) (p i r : nat) : F :=
  nth r (nth i (nth p results []) []) fzero.

(** Lengths for which line 62 gives a positive block size, a non-negative
    number of draws and at least one replication. *)
Definition valid_config : Prop :=
  Forall (fun t => 0 < t /\ 8 * t <= 2 ^ 20 * MAX_MEMORY_SIZE cfg) (T cfg)
  /\ 0 <= EX_SIZE cfg
  /\ (0 < EX_NUM cfg)%nat.

(** The client [rc] exists and has no task outstanding. *)
Definition idle (d : Driver F) : Prop :=
  (rc < length (clients d))%nat /\ outstanding (get_client rc d) = [].

End DriverLoop.

(** ** [numpy.percentile] in exact arithmetic

    The default (linear) interpolation of numpy: the data are sorted, the
    level [q] is mapped to the fractional position [q / 100 * (N - 1)], and
    the two neighbours of that position are averaged with the weights
    [1 - w] and [w].  Rationals stand for the doubles: rounding is not
    modelled here. *)





(** ** [numpy.percentile] on binary64

    The same steps on doubles, each operation rounded as the machine rounds
    it: the position [q / 100.0 * (N - 1)], its floor, the two weights, the
    two products [x1] and [x2] and their sum.  [sort] leaves the NaN at the
    end, as numpy does. *)

(** [floor] of a finite double (a level's position is one). *)
Definition floor_double (x : float) : Z :=
  match Prim2SF x with
  | S754_finite s m e => Z.shiftl (if s then Z.neg m else Z.pos m) e
  | _ => 0
  end.

Fixpoint insert_sorted_double (x : float) (l : list float) : list float :=
  match l with
  | [] => [x]
  | y :: l' =>
      if PrimFloat.leb x y || PrimFloat.is_nan y
      then x :: l
      else y :: insert_sorted_double x l'
  end.

Definition sort_double (l : list float) : list float :=
  fold_right insert_sorted_double [] l.

Definition percentile_at_double (ap : list float) (q : float) : float :=
  let Nx := Z.of_nat (length ap) in
  let index := PrimFloat.mul (PrimFloat.div q (float_of_Z 100)) (float_of_Z (Nx - 1)) in
  let index_below := floor_double index in
  let index_above := Z.min (index_below + 1) (Nx - 1) in
  let weight_above := PrimFloat.sub index (float_of_Z index_below) in
  let weight_below := PrimFloat.sub PrimFloat.one weight_above in
  let x1 := PrimFloat.mul (nth (Z.to_nat index_below) ap PrimFloat.nan) weight_below in
  let x2 := PrimFloat.mul (nth (Z.to_nat index_above) ap PrimFloat.nan) weight_above in
  PrimFloat.add x1 x2.

Definition percentile_double (x : list float) (qs : list float) : list float :=
  map (percentile_at_double (sort_double x)) qs.


(** ** Concrete data for evaluating the embedding on binary64 *)

(** A stream of deviates: the values [1.0], ..., [7.0] in turn. *)
Definition demo_stream (key k : Z) : float := float_of_Z (1 + (key + k) mod 7).

(** The pseudo-inverse of a matrix of one column [v]: the row [v / (v . v)]. *)
Definition pinv_column (z : list (list float)) : list (list float) :=
  let v := map (fun r => hd PrimFloat.zero r) z in
  let ss := fold_left PrimFloat.add (map (fun x => PrimFloat.mul x x) v) PrimFloat.zero in
  [map (fun x => PrimFloat.div x ss) v].

(** An engine with no [RandomState] object yet. *)
Definition demo_engine : Engine :=
  {| np_random := seeded 0; heap := []; os_entropy := 0; adf_calls := [] |}.

(** A stand-in for [numpy.percentile] on binary64: the first draw at every
    level. *)
Definition first_draw (x qs : list float) : list float :=
  map (fun _ => hd PrimFloat.zero x) qs.

(** A driver before any task is submitted. *)
Definition demo_driver : Driver float :=
  {| clients := [{| outstanding := []; c_results := []; c_metadata := [];
                    c_history := []; digest_history := []; controller_db := [];
                    next_id := 0 |}];
     views := [{| v_results := []; v_history := [] |};
               {| v_results := []; v_history := [] |}];
     disk := [] |}.

(** A small configuration: two replications of three draws for the lengths
    3 and 2. *)
Definition demo_config : Config := {|
  EX_NUM := 2;
  EX_SIZE := 3;
  MAX_MEMORY_SIZE := 100;
  trends := ["nc"; "c"]%string;
  T := [3; 2]
|}.

Definition demo_ints (s : Z) (k : nat) : Z := s + Z.of_nat k.

(** An engine holding one [RandomState] object, seeded with 0. *)
Definition demo_engine1 : Engine :=
  {| np_random := seeded 0; heap := [seeded 0]; os_entropy := 0; adf_calls := [] |}.

(** The master sequence that lists its own positions: the value at position
    [k] is [k]. *)
Definition position_ints (s : Z) (k : nat) : Z := Z.of_nat k.

(** ** When the calls are accepted *)

(** The trends for which lines 89-95 build regressors. *)
Definition detrended (trend : string) : bool :=
  String.eqb trend "c" || String.eqb trend "ct" || String.eqb trend "ctt".

(** The arguments [adf_simulation] runs to its end on: [ones] and
    [standard_normal] are given no negative dimension. *)
Definition adf_accepts (n : Z) (trend : string) (b : Z) : bool :=
  (negb (detrended trend) || (1 <=? n)) && (0 <=? n + 50) && (0 <=? b).

(** The engine [e] once a call with [rng] is logged. *)
Definition logged (rng : option nat) (e : Engine) : Engine :=
  {| np_random := np_random e; heap := heap e; os_entropy := os_entropy e;
     adf_calls := adf_calls e ++ [rng] |}.

(** The objects [r1] of [e1] and [r2] of [e2] are two generators in the
    same state. *)
Definition same_source (r1 : nat) (e1 : Engine) (r2 : nat) (e2 : Engine) : Prop :=
  (r1 < length (heap e1))%nat /\ (r2 < length (heap e2))%nat
  /\ get_gen (Obj r1) e1 = get_gen (Obj r2) e2.

(** The arguments on which line 62 is the integer quotient: the two
    products are whole numbers a double holds, and their rounded quotient
    truncates to the quotient of the integers. *)
Definition exact_budget (M n : Z) : Prop :=
  2 ^ 20 * Z.abs M + 8 * Z.abs n <= 2 ^ 53.

(** The seeds [RandomState.seed] accepts at line 58. *)
Definition seed_accepted (s : Z) : Prop := 0 <= s < 2 ^ 32.

(** A configuration that asks for a negative number of draws: [zeros(b)]
    raises in every task. *)
Definition negative_draws_config : Config := {|
  EX_NUM := 2;
  EX_SIZE := -1;
  MAX_MEMORY_SIZE := 100;
  trends := ["nc"]%string;
  T := [3]
|}.

Section RoundSteps.
Context {F : Type} `{Float64 F}.

Variable normal_stream : Z -> Z -> F.
Variable pinv : list (list F) -> list (list F).
Variable percentile : list F -> list F -> list F.
Variable int_stream : Z -> nat -> Z.
Variable engine : Engine.
Variable cfg : Config.

(** Lines 139-165: the round up to the assignment into the table.  The file
    is written after it, at lines 167-168. *)
Definition round_table (tr : string) (it : nat * Z)
    (results : list (list (list F))) : D (list (list (list F))) :=
  let (i, t) := it in
  let ts := map_async_args cfg t tr (seeds int_stream cfg) in
  ids <- map_async lview ts ;;
  out <- get normal_stream pinv engine cfg lview ids ts ;;
  clear_cache rc lview ;;;
  let q := quantiles percentile out in
  a <- lift (np_array_T q) ;;
  lift (assign_length cfg results i a).

End RoundSteps.

(** * Properties *)

(** ** Arrays: shapes and columns *)

Section ArrayFacts.
Context {F : Type} `{Arith F}.

Lemma zip_with_length {A B C} (f : A -> B -> C) xs ys :
  length (zip_with f xs ys) = Nat.min (length xs) (length ys).
Proof.
  revert ys; induction xs as [|x xs IH]; intros [|y ys]; simpl; auto.
Qed.

Lemma zip_with_nth {A B C} (f : A -> B -> C) xs ys j da db dc :
  (j < length xs)%nat -> (j < length ys)%nat ->
  nth j (zip_with f xs ys) dc = f (nth j xs da) (nth j ys db).
Proof.
  revert ys j; induction xs as [|x xs IH]; intros [|y ys] [|j]; simpl;
    intros; try lia; auto.
  apply IH; lia.
Qed.

Lemma list_eq_nth {A} (d : A) (l1 l2 : list A) :
  length l1 = length l2 ->
  (forall j, (j < length l1)%nat -> nth j l1 d = nth j l2 d) ->
  l1 = l2.
Proof.
  revert l2; induction l1 as [|x l1 IH]; intros [|y l2]; simpl; intros Hl Hn;
    try discriminate; auto.
  f_equal.
  - apply (Hn 0%nat); lia.
  - apply IH; [lia|]. intros j Hj. apply (Hn (S j)); lia.
Qed.

Lemma map_seq_nth {A} (f : nat -> A) (d : A) (k j : nat) :
  (j < k)%nat -> nth j (map f (seq 0 k)) d = f j.
Proof.
  intros Hj. rewrite (nth_indep _ d (f 0%nat)) by now rewrite length_map, length_seq.
  rewrite map_nth, seq_nth by lia. reflexivity.
Qed.

Lemma list_as_map {A} (d : A) (l : list A) :
  l = map (fun j => nth j l d) (seq 0 (length l)).
Proof.
  apply (list_eq_nth d).
  - now rewrite length_map, length_seq.
  - intros j Hj. now rewrite map_seq_nth.
Qed.

(** *** Shapes *)

Lemma shaped_nil cols : shaped cols ([] : list (list F)).
Proof. constructor. Qed.

Lemma shaped_normal_matrix (stream : Z -> Z -> F) key p rows cols :
  shaped cols (normal_matrix stream key p rows cols).
Proof.
  unfold shaped, normal_matrix. apply Forall_forall. intros r Hr.
  apply in_map_iff in Hr. destruct Hr as [i [<- _]].
  now rewrite length_map, length_seq.
Qed.

Lemma length_normal_matrix (stream : Z -> Z -> F) key p rows cols :
  length (normal_matrix stream key p rows cols) = rows.
Proof. unfold normal_matrix. now rewrite length_map, length_seq. Qed.

Lemma vadd_length (a b : list F) :
  length a = length b -> length (vadd a b) = length a.
Proof. intros E. unfold vadd. rewrite zip_with_length. lia. Qed.

Lemma shaped_cumsum_from cols (m : list (list F)) : forall acc,
  length acc = cols -> shaped cols m -> shaped cols (cumsum_from acc m).
Proof.
  induction m as [|r m IH]; intros acc Ha Hm; simpl; [constructor|].
  inversion Hm as [|? ? Hr Hm']; subst.
  assert (Hl : length (vadd acc r) = length acc)
    by (unfold vadd; rewrite zip_with_length; lia).
  constructor; [exact Hl|].
  apply IH; [exact Hl|exact Hm'].
Qed.

Lemma shaped_cumsum cols (m : list (list F)) :
  shaped cols m -> shaped cols (cumsum m).
Proof.
  destruct m as [|r m]; simpl; intros Hm; [constructor|].
  inversion Hm as [|? ? Hr Hm']; subst. constructor; [reflexivity|].
  apply shaped_cumsum_from; auto.
Qed.

Lemma length_cumsum_from (m : list (list F)) : forall acc,
  length (cumsum_from acc m) = length m.
Proof. induction m; simpl; auto. Qed.

Lemma length_cumsum (m : list (list F)) : length (cumsum m) = length m.
Proof. destruct m; simpl; auto using length_cumsum_from. Qed.

Lemma shaped_skipn cols k (m : list (list F)) :
  shaped cols m -> shaped cols (skipn k m).
Proof.
  revert m; induction k; intros [|r m] Hm; simpl; auto.
  inversion Hm; auto.
Qed.

Lemma shaped_tl cols (m : list (list F)) : shaped cols m -> shaped cols (tl m).
Proof. destruct m; simpl; auto. intros Hm; inversion Hm; auto. Qed.

Lemma shaped_removelast cols (m : list (list F)) :
  shaped cols m -> shaped cols (removelast m).
Proof.
  induction m as [|r m IH]; intros Hm; [constructor|].
  inversion Hm as [|? ? Hr Hm']; subst.
  destruct m as [|r' m]; [constructor|].
  change (removelast (r :: r' :: m)) with (r :: removelast (r' :: m)).
  constructor; [reflexivity|]. apply IH. exact Hm'.
Qed.

Lemma length_removelast {A} (l : list A) : length (removelast l) = pred (length l).
Proof.
  induction l as [|x l IH]; [reflexivity|].
  destruct l as [|y l]; [reflexivity|].
  change (removelast (x :: y :: l)) with (x :: removelast (y :: l)).
  simpl length in *. now rewrite IH.
Qed.

Lemma length_tl {A} (l : list A) : length (tl l) = pred (length l).
Proof. destruct l; auto. Qed.

Lemma shaped_dot cols (a b : list (list F)) : shaped cols (dot cols a b).
Proof.
  unfold shaped, dot. apply Forall_forall. intros r Hr.
  apply in_map_iff in Hr. destruct Hr as [row [<- _]].
  now rewrite length_map, length_seq.
Qed.

Lemma shaped_zip_with cols (f : F -> F -> F) (a b : list (list F)) :
  shaped cols a -> shaped cols b -> shaped cols (zip_with (zip_with f) a b).
Proof.
  intros Ha; revert b; induction Ha as [|r a Hr Ha IH]; intros [|s b] Hb;
    simpl; try constructor.
  - inversion Hb; subst. rewrite zip_with_length. lia.
  - inversion Hb; subst. apply IH; auto.
Qed.

Lemma shaped_msquare cols (a : list (list F)) :
  shaped cols a -> shaped cols (msquare a).
Proof.
  unfold shaped, msquare. intros Ha. apply Forall_map.
  eapply Forall_impl; [|exact Ha]. simpl. intros r Hr. now rewrite length_map.
Qed.

(** *** Columns *)

Lemma col_length j (m : list (list F)) : length (col j m) = length m.
Proof. apply length_map. Qed.

Lemma col_skipn j k (m : list (list F)) : col j (skipn k m) = skipn k (col j m).
Proof. unfold col. now rewrite skipn_map. Qed.

Lemma col_tl j (m : list (list F)) : col j (tl m) = tl (col j m).
Proof. destruct m; reflexivity. Qed.

Lemma col_removelast j (m : list (list F)) :
  col j (removelast m) = removelast (col j m).
Proof.
  induction m as [|r m IH]; [reflexivity|].
  destruct m as [|r' m]; [reflexivity|].
  change (removelast (r :: r' :: m)) with (r :: removelast (r' :: m)).
  change (col j (r :: removelast (r' :: m)))
    with (nth j r fzero :: col j (removelast (r' :: m))).
  now rewrite IH.
Qed.

Lemma col_zip_with cols (f : F -> F -> F) j (a b : list (list F)) :
  shaped cols a -> shaped cols b -> (j < cols)%nat ->
  col j (zip_with (zip_with f) a b) = zip_with f (col j a) (col j b).
Proof.
  intros Ha; revert b; induction Ha as [|r a Hr Ha IH]; intros [|s b] Hb Hj;
    simpl; auto.
  inversion Hb; subst. f_equal.
  - apply zip_with_nth; lia.
  - apply IH; auto.
Qed.

Lemma col_msquare cols j (a : list (list F)) :
  shaped cols a -> (j < cols)%nat ->
  col j (msquare a) = vmul (col j a) (col j a).
Proof.
  induction 1 as [|r a Hr Ha IH]; intros Hj; simpl; auto.
  unfold vmul in *. simpl. f_equal; auto.
  rewrite (nth_indep (map fsquare r) fzero (fsquare fzero))
    by (rewrite length_map; lia).
  apply (map_nth fsquare).
Qed.

Lemma col_dot cols j (a b : list (list F)) :
  (j < cols)%nat ->
  col j (dot cols a b) = map (fun row => inner row (col j b)) a.
Proof.
  intros Hj. unfold col at 1, dot. rewrite map_map. apply map_ext.
  intros row. now rewrite map_seq_nth.
Qed.

Lemma fold_vadd_nth cols j (m : list (list F)) : forall acc,
  length acc = cols -> shaped cols m -> (j < cols)%nat ->
  nth j (fold_left vadd m acc) fzero = fold_left fadd (col j m) (nth j acc fzero).
Proof.
  induction m as [|r m IH]; intros acc Ha Hm Hj; simpl; auto.
  inversion Hm as [|? ? Hr Hm']; subst.
  rewrite IH; auto.
  - f_equal. unfold vadd. apply zip_with_nth; lia.
  - unfold vadd; rewrite zip_with_length; lia.
Qed.

Lemma fold_vadd_length cols (m : list (list F)) : forall acc,
  length acc = cols -> shaped cols m -> length (fold_left vadd m acc) = cols.
Proof.
  induction m as [|r m IH]; intros acc Ha Hm; simpl; auto.
  inversion Hm as [|? ? Hr Hm']; subst.
  rewrite IH; auto.
  unfold vadd; rewrite zip_with_length; lia.
Qed.

Lemma nth_zeros j k : nth j (zeros k) fzero = (fzero : F).
Proof.
  unfold zeros. revert j; induction k; intros [|j]; simpl; auto.
Qed.

Lemma sum_axis0_length cols (m : list (list F)) :
  shaped cols m -> length (sum_axis0 cols m) = cols.
Proof.
  intros Hm. unfold sum_axis0. apply fold_vadd_length; auto.
  apply repeat_length.
Qed.

Lemma sum_axis0_nth cols j (m : list (list F)) :
  shaped cols m -> (j < cols)%nat ->
  nth j (sum_axis0 cols m) fzero = vsum (col j m).
Proof.
  intros Hm Hj. unfold sum_axis0, vsum.
  rewrite (fold_vadd_nth cols); auto.
  - now rewrite nth_zeros.
  - apply repeat_length.
Qed.

End ArrayFacts.

(** ** The statistic generator *)

Section SimulationFacts.
Context {F : Type} `{Arith F}.

Variable normal_stream : Z -> Z -> F.
Variable pinv : list (list F) -> list (list F).

Lemma map_nth_lt {A B} (f : A -> B) (l : list A) (da : A) (db : B) (j : nat) :
  (j < length l)%nat -> nth j (map f l) db = f (nth j l da).
Proof.
  intros Hj. rewrite (nth_indep (map f l) db (f da)) by now rewrite length_map.
  apply map_nth.
Qed.

(** The vectorised reduction of lines 109-114 is, column by column, the
    statistic of the specification. *)
Lemma adf_stat_columns cols (lhs rhs : list (list F)) :
  shaped cols lhs -> shaped cols rhs ->
  adf_stat cols lhs rhs
  = map (fun j => z_statistic (col j rhs) (col j lhs)) (seq 0 cols).
Proof.
  intros Hl Hr.
  assert (Hxy : length (sum_axis0 cols (mmul rhs lhs)) = cols)
    by (apply sum_axis0_length, shaped_zip_with; assumption).
  assert (Hxx : length (sum_axis0 cols (msquare rhs)) = cols)
    by (apply sum_axis0_length, shaped_msquare; assumption).
  apply (list_eq_nth fzero).
  - unfold adf_stat, vdiv. rewrite !length_map, zip_with_length, length_seq. lia.
  - unfold adf_stat, vdiv. rewrite length_map, zip_with_length, Hxy, Hxx.
    intros j Hj. assert (j < cols)%nat by lia.
    rewrite (map_nth_lt _ _ fzero) by (rewrite zip_with_length; lia).
    rewrite (zip_with_nth _ _ _ _ fzero fzero) by lia.
    rewrite map_seq_nth by assumption.
    rewrite !(sum_axis0_nth cols)
      by (assumption || apply shaped_msquare || apply shaped_zip_with; assumption).
    unfold z_statistic, raw_cov, raw_var, mmul.
    rewrite (col_msquare cols) by assumption. unfold vmul.
    rewrite (col_zip_with cols) by assumption.
    now rewrite col_length.
Qed.

Lemma adf_stat_length cols (lhs rhs : list (list F)) :
  shaped cols lhs -> shaped cols rhs -> length (adf_stat cols lhs rhs) = cols.
Proof.
  intros Hl Hr. rewrite adf_stat_columns by assumption.
  now rewrite length_map, length_seq.
Qed.

(** *** Shapes along the computation *)

Lemma shaped_paths cols (y : list (list F)) : shaped cols y -> shaped cols (paths y).
Proof. intros Hy. apply shaped_skipn, shaped_cumsum, Hy. Qed.

Lemma length_paths (y : list (list F)) : length (paths y) = (length y - 50)%nat.
Proof. unfold paths. now rewrite length_skipn, length_cumsum. Qed.

Lemma shaped_detrend cols z (x : list (list F)) :
  shaped cols x -> shaped cols (detrend pinv cols z x).
Proof.
  intros Hx. destruct z as [z|]; simpl; auto.
  unfold residual, msub. apply shaped_zip_with; auto using shaped_dot.
Qed.

Lemma shaped_adf_lhs cols z (y : list (list F)) :
  shaped cols y -> shaped cols (adf_lhs pinv cols z y).
Proof. intros Hy. apply shaped_detrend, shaped_tl, shaped_paths, Hy. Qed.

Lemma shaped_adf_rhs cols z (y : list (list F)) :
  shaped cols y -> shaped cols (adf_rhs pinv cols z y).
Proof. intros Hy. apply shaped_detrend, shaped_removelast, shaped_paths, Hy. Qed.

Lemma block_length z key p n b : length (block normal_stream pinv z key p n b) = Z.to_nat b.
Proof.
  unfold block. apply adf_stat_length.
  - apply shaped_adf_lhs, shaped_normal_matrix.
  - apply shaped_adf_rhs, shaped_normal_matrix.
Qed.

(** *** The regressors *)

Lemma regressors_valid trend nobs :
  0 <= nobs -> exists z, regressors trend nobs = Ok z.
Proof.
  intros Hn. unfold regressors, np_ones_col, np_ones.
  assert (E : (nobs <? 0) = false) by (apply Z.ltb_ge; lia). rewrite E.
  destruct (String.eqb trend "c"); [eexists; reflexivity|].
  destruct (String.eqb trend "ct"); [eexists; reflexivity|].
  destruct (String.eqb trend "ctt"); eexists; reflexivity.
Qed.

Lemma regressors_rows trend nobs z :
  regressors trend nobs = Ok (Some z) -> length z = Z.to_nat nobs.
Proof.
  unfold regressors, np_ones_col, np_ones, transpose.
  destruct (String.eqb trend "c").
  { destruct (nobs <? 0); [discriminate|].
    intros E; injection E as <-. apply repeat_length. }
  destruct (String.eqb trend "ct").
  { destruct (nobs <? 0); [discriminate|].
    intros E; injection E as <-. now rewrite length_map, length_seq. }
  destruct (String.eqb trend "ctt"); [|discriminate].
  destruct (nobs <? 0); [discriminate|].
  intros E; injection E as <-. now rewrite length_map, length_seq.
Qed.

(** *** Running [adf_simulation] *)

Lemma adf_simulation_some n trend b r e z :
  0 <= n + 50 -> 0 <= b -> regressors trend (n - 1) = Ok z ->
  adf_simulation normal_stream pinv n trend b (Some r) e
  = (Ok (block normal_stream pinv z (rs_key (get_gen (Obj r) e))
           (rs_drawn (get_gen (Obj r) e)) n b),
     {| np_random := np_random e;
        heap := list_set r
                  {| rs_key := rs_key (get_gen (Obj r) e);
                     rs_drawn := rs_drawn (get_gen (Obj r) e) + (n + 50) * b |}
                  (heap e);
        os_entropy := os_entropy e;
        adf_calls := adf_calls e ++ [Some r] |}).
Proof.
  intros Hn Hb Hz.
  unfold adf_simulation, bind, log_call, ret, lift, standard_normal. simpl.
  rewrite Hz.
  assert (E1 : (n + 50 <? 0) = false) by (apply Z.ltb_ge; lia).
  assert (E2 : (b <? 0) = false) by (apply Z.ltb_ge; lia).
  rewrite E1, E2. reflexivity.
Qed.

Lemma adf_simulation_fst n trend b rng e z :
  0 <= n + 50 -> 0 <= b -> regressors trend (n - 1) = Ok z ->
  fst (adf_simulation normal_stream pinv n trend b rng e)
  = Ok (let cols := Z.to_nat b in
        let y := draws normal_stream n b rng e in
        adf_stat cols (adf_lhs pinv cols z y) (adf_rhs pinv cols z y)).
Proof.
  intros Hn Hb Hz.
  assert (E1 : (n + 50 <? 0) = false) by (apply Z.ltb_ge; lia).
  assert (E2 : (b <? 0) = false) by (apply Z.ltb_ge; lia).
  destruct rng as [r|];
    unfold adf_simulation, bind, log_call, ret, lift, standard_normal, rs_seed;
    simpl; rewrite Hz, E1, E2; reflexivity.
Qed.

Lemma nth_list_set {A} (r : nat) (v d : A) (l : list A) :
  (r < length l)%nat -> nth r (list_set r v l) d = v.
Proof.
  revert r; induction l as [|x l IH]; intros [|r] Hr; simpl in *; try lia; auto.
  apply IH; lia.
Qed.

Lemma length_list_set {A} (r : nat) (v : A) (l : list A) :
  length (list_set r v l) = length l.
Proof. revert r; induction l as [|x l IH]; intros [|r]; simpl; auto. Qed.

Lemma adf_simulation_generator n trend b rng e z :
  0 <= n + 50 -> 0 <= b -> regressors trend (n - 1) = Ok z ->
  allocated rng e ->
  get_gen (target_of rng) (snd (adf_simulation normal_stream pinv n trend b rng e))
  = {| rs_key := rs_key (source_of rng e);
       rs_drawn := rs_drawn (source_of rng e) + (n + 50) * b |}.
Proof.
  intros Hn Hb Hz Ha.
  assert (E1 : (n + 50 <? 0) = false) by (apply Z.ltb_ge; lia).
  assert (E2 : (b <? 0) = false) by (apply Z.ltb_ge; lia).
  destruct rng as [r|];
    unfold adf_simulation, bind, log_call, ret, lift, standard_normal, rs_seed;
    simpl; rewrite Hz, E1, E2; simpl; [|reflexivity].
  now apply nth_list_set.
Qed.

(** *** Columns along the computation *)

Lemma col_normal_matrix key p rows cols j :
  (j < cols)%nat ->
  col j (normal_matrix normal_stream key p rows cols)
  = normal_column normal_stream key p rows cols j.
Proof.
  intros Hj. unfold col, normal_matrix, normal_column. rewrite map_map.
  apply map_ext. intros i. now rewrite map_seq_nth.
Qed.

Lemma col_cumsum_from cols j (m : list (list F)) : forall acc,
  length acc = cols -> shaped cols m -> (j < cols)%nat ->
  col j (cumsum_from acc m) = running_from (nth j acc fzero) (col j m).
Proof.
  induction m as [|r m IH]; intros acc Ha Hm Hj; [reflexivity|].
  inversion Hm as [|? ? Hr Hm']; subst.
  assert (Hl : length (vadd acc r) = length acc)
    by (unfold vadd; rewrite zip_with_length; lia).
  simpl. rewrite (IH _ Hl Hm' Hj). unfold vadd.
  now rewrite (zip_with_nth _ _ _ _ fzero fzero) by lia.
Qed.

Lemma col_cumsum cols j (m : list (list F)) :
  shaped cols m -> (j < cols)%nat -> col j (cumsum m) = running_sum (col j m).
Proof.
  destruct m as [|r m]; intros Hm Hj; [reflexivity|].
  inversion Hm as [|? ? Hr Hm']; subst. simpl.
  now rewrite (col_cumsum_from (length r)).
Qed.

Lemma col_paths cols j (y : list (list F)) :
  shaped cols y -> (j < cols)%nat ->
  col j (paths y) = skipn 50 (running_sum (col j y)).
Proof.
  intros Hy Hj. unfold paths. now rewrite col_skipn, (col_cumsum cols).
Qed.

Lemma col_detrend cols j z (x : list (list F)) :
  shaped cols x -> (j < cols)%nat ->
  col j (detrend pinv cols z x) = detrend_col pinv z (col j x).
Proof.
  intros Hx Hj. destruct z as [z|]; [|reflexivity].
  unfold detrend, residual, detrend_col, residual_col, msub, vsub, mat_vec.
  rewrite (col_zip_with cols) by auto using shaped_dot.
  now rewrite !col_dot by assumption.
Qed.

(** Position [j] of a block is the statistic of column [j] of its draws. *)
Lemma block_nth z key p n b j :
  (j < Z.to_nat b)%nat ->
  nth j (block normal_stream pinv z key p n b) fzero
  = column_statistic pinv z
      (normal_column normal_stream key p (Z.to_nat (n + 50)) (Z.to_nat b) j).
Proof.
  intros Hj. unfold block.
  set (cols := Z.to_nat b) in *.
  set (y := normal_matrix normal_stream key p (Z.to_nat (n + 50)) cols).
  assert (Hy : shaped cols y) by apply shaped_normal_matrix.
  rewrite adf_stat_columns by auto using shaped_adf_lhs, shaped_adf_rhs.
  rewrite map_seq_nth by assumption.
  unfold adf_lhs, adf_rhs, lead, lag, column_statistic.
  rewrite !(col_detrend cols)
    by auto using shaped_tl, shaped_removelast, shaped_paths.
  rewrite col_tl, col_removelast, (col_paths cols) by assumption.
  unfold y. now rewrite col_normal_matrix.
Qed.

(** *** Lengths of the two series *)

Lemma length_detrend cols trend nobs z (x : list (list F)) :
  regressors trend nobs = Ok z -> length x = Z.to_nat nobs ->
  length (detrend pinv cols z x) = Z.to_nat nobs.
Proof.
  intros Hz Hx. destruct z as [z|]; [|exact Hx].
  apply regressors_rows in Hz.
  unfold detrend, residual, msub, dot.
  rewrite zip_with_length, length_map. lia.
Qed.

Lemma length_adf_lhs cols trend n z (y : list (list F)) :
  0 < n -> regressors trend (n - 1) = Ok z -> length y = Z.to_nat (n + 50) ->
  length (adf_lhs pinv cols z y) = Z.to_nat (n - 1).
Proof.
  intros Hn Hz Hy. unfold adf_lhs, lead.
  apply (length_detrend cols trend); [assumption|].
  rewrite length_tl, length_paths, Hy. lia.
Qed.

Lemma length_adf_rhs cols trend n z (y : list (list F)) :
  0 < n -> regressors trend (n - 1) = Ok z -> length y = Z.to_nat (n + 50) ->
  length (adf_rhs pinv cols z y) = Z.to_nat (n - 1).
Proof.
  intros Hn Hz Hy. unfold adf_rhs, lag.
  apply (length_detrend cols trend); [assumption|].
  rewrite length_removelast, length_paths, Hy. lia.
Qed.

Lemma length_draws n b rng e :
  length (draws normal_stream n b rng e) = Z.to_nat (n + 50).
Proof. apply length_normal_matrix. Qed.

Lemma shaped_draws n b rng e : shaped (Z.to_nat b) (draws normal_stream n b rng e).
Proof. apply shaped_normal_matrix. Qed.

(** C4: for valid [n] and [b], every statistic [adf_simulation] returns is
    [nobs * (cov(lag, lead) / var(lag) - 1)] for its column of the lagged
    series [rhs] and of the series [lhs] (residuals on the regressors when
    there are any), the raw cross-products being summed over time, and
    [nobs = n - 1] being the length of the residual series. *)
Theorem adf_simulation_statistic n trend b rng e :
  0 < n -> 0 <= b ->
  exists z,
    regressors trend (n - 1) = Ok z /\
    let cols := Z.to_nat b in
    let y := draws normal_stream n b rng e in
    let lhs := adf_lhs pinv cols z y in
    let rhs := adf_rhs pinv cols z y in
    fst (adf_simulation normal_stream pinv n trend b rng e)
    = Ok (map (fun j => z_statistic (col j rhs) (col j lhs)) (seq 0 cols))
    /\ (forall j, length (col j lhs) = Z.to_nat (n - 1))
    /\ (forall j, length (col j rhs) = Z.to_nat (n - 1)).
Proof.
  intros Hn Hb.
  destruct (regressors_valid trend (n - 1)) as [z Hz]; [lia|].
  exists z. split; [exact Hz|]. cbv zeta.
  split; [|split].
  - rewrite (adf_simulation_fst n trend b rng e z) by (assumption || lia).
    cbv zeta. f_equal. apply adf_stat_columns.
    + apply shaped_adf_lhs, shaped_draws.
    + apply shaped_adf_rhs, shaped_draws.
  - intros j. rewrite col_length.
    apply (length_adf_lhs _ trend); auto using length_draws.
  - intros j. rewrite col_length.
    apply (length_adf_rhs _ trend); auto using length_draws.
Qed.

(** C5, as the code has it: the normal draws form an array of [n + 50]
    rows and [b] columns (the generator advances by [(n + 50) * b]
    deviates), the running sums without their first 50 rows leave [n] path
    values per column, and the series [lhs] (the path from index 1 on) and
    [rhs] (the path without its last value) have [n - 1] rows of [b]
    entries each. *)
Theorem adf_simulation_draws n trend b rng e :
  0 < n -> 0 <= b -> allocated rng e ->
  exists z,
    regressors trend (n - 1) = Ok z /\
    let cols := Z.to_nat b in
    let y := draws normal_stream n b rng e in
    let lhs := adf_lhs pinv cols z y in
    let rhs := adf_rhs pinv cols z y in
    fst (adf_simulation normal_stream pinv n trend b rng e)
    = Ok (adf_stat cols lhs rhs)
    /\ rs_drawn (get_gen (target_of rng)
                   (snd (adf_simulation normal_stream pinv n trend b rng e)))
       = rs_drawn (source_of rng e) + (n + 50) * b
    /\ length y = Z.to_nat (n + 50) /\ shaped cols y
    /\ length (paths y) = Z.to_nat n /\ shaped cols (paths y)
    /\ (forall j, (j < cols)%nat ->
          col j (paths y) = skipn 50 (running_sum (col j y))
          /\ col j (lead (paths y)) = tl (col j (paths y))
          /\ col j (lag (paths y)) = removelast (col j (paths y)))
    /\ length lhs = Z.to_nat (n - 1) /\ shaped cols lhs
    /\ length rhs = Z.to_nat (n - 1) /\ shaped cols rhs.
Proof.
  intros Hn Hb Ha.
  destruct (regressors_valid trend (n - 1)) as [z Hz]; [lia|].
  exists z. split; [exact Hz|]. cbv zeta.
  pose proof (shaped_draws n b rng e) as Hy.
  pose proof (length_draws n b rng e) as Hl.
  repeat split.
  - now rewrite (adf_simulation_fst n trend b rng e z) by (assumption || lia).
  - now rewrite (adf_simulation_generator n trend b rng e z) by (assumption || lia).
  - exact Hl.
  - exact Hy.
  - rewrite length_paths, Hl. lia.
  - now apply shaped_paths.
  - now apply (col_paths (Z.to_nat b)).
  - apply col_tl.
  - apply col_removelast.
  - now apply (length_adf_lhs _ trend).
  - now apply shaped_adf_lhs.
  - now apply (length_adf_rhs _ trend).
  - now apply shaped_adf_rhs.
Qed.

(** C9: a trend other than ['c'], ['ct'] and ['ctt'] leaves [z] at [None]:
    for valid [n] and [b] the call does not raise, skips the residuals and
    returns what the trend ['nc'] returns, with the same effect on the
    engine. *)
Theorem adf_simulation_other_trend n trend b rng e :
  trend <> "c"%string -> trend <> "ct"%string -> trend <> "ctt"%string ->
  0 < n -> 0 <= b ->
  regressors trend (n - 1) = Ok None
  /\ adf_simulation normal_stream pinv n trend b rng e
     = adf_simulation normal_stream pinv n "nc" b rng e
  /\ fst (adf_simulation normal_stream pinv n trend b rng e)
     = Ok (let y := draws normal_stream n b rng e in
           adf_stat (Z.to_nat b) (lead (paths y)) (lag (paths y))).
Proof.
  intros H1 H2 H3 Hn Hb.
  assert (Hz : regressors trend (n - 1) = Ok None).
  { unfold regressors.
    apply String.eqb_neq in H1, H2, H3. now rewrite H1, H2, H3. }
  split; [exact Hz|]. split.
  - unfold adf_simulation. now rewrite Hz.
  - now rewrite (adf_simulation_fst n trend b rng e None) by (assumption || lia).
Qed.

End SimulationFacts.

(** ** The batch runner *)

Section WrapperFacts.
Context {F : Type} `{Arith F}.

Variable normal_stream : Z -> Z -> F.
Variable pinv : list (list F) -> list (list F).

Lemma list_set_twice {A} (r : nat) (v w : A) (l : list A) :
  list_set r v (list_set r w l) = list_set r v l.
Proof.
  revert r; induction l as [|x l IH]; intros [|r]; simpl; auto.
  now rewrite IH.
Qed.

Lemma list_set_last {A} (v w : A) (l : list A) :
  list_set (length l) v (l ++ [w]) = l ++ [v].
Proof. induction l as [|x l IH]; simpl; auto. now rewrite IH. Qed.

Lemma nth_last {A} (v d : A) (l : list A) : nth (length l) (l ++ [v]) d = v.
Proof. induction l; simpl; auto. Qed.

Lemma skipn_zeros (k m : nat) : skipn k (zeros m) = (zeros (m - k) : list F).
Proof.
  unfold zeros. revert m; induction k; intros [|m]; simpl; auto.
Qed.

(** [res[st:en] = v] when the slice lies in [res] and has the length of [v]. *)
Lemma slice_assign_block (done rest v : list F) :
  (length v <= length rest)%nat ->
  slice_assign (done ++ rest) (Z.of_nat (length done))
    (Z.of_nat (length done) + Z.of_nat (length v)) v
  = Ok (done ++ v ++ skipn (length v) rest).
Proof.
  intros Hv. unfold slice_assign, slice_bound.
  rewrite length_app.
  assert (E1 : (Z.of_nat (length done) <? 0) = false) by (apply Z.ltb_ge; lia).
  assert (E2 : (Z.of_nat (length done) + Z.of_nat (length v) <? 0) = false)
    by (apply Z.ltb_ge; lia).
  rewrite E1, E2.
  replace (Z.min (Z.of_nat (length done)) (Z.of_nat (length done + length rest)))
    with (Z.of_nat (length done)) by lia.
  replace (Z.max (Z.of_nat (length done))
             (Z.min (Z.of_nat (length done) + Z.of_nat (length v))
                    (Z.of_nat (length done + length rest))))
    with (Z.of_nat (length done + length v)) by lia.
  replace (Z.to_nat (Z.of_nat (length done + length v) - Z.of_nat (length done)))
    with (length v) by lia.
  rewrite Nat.eqb_refl, !Nat2Z.id.
  rewrite firstn_app, Nat.sub_diag, firstn_all. simpl. rewrite app_nil_r.
  rewrite skipn_app, skipn_all2 by lia. simpl.
  now replace (length done + length v - length done)%nat with (length v) by lia.
Qed.

Lemma block_list_length z key n bs : forall k fin rem,
  0 < bs -> 0 <= rem ->
  Z.of_nat (length (block_list normal_stream pinv k z key n bs fin rem))
  = Z.min rem (Z.of_nat k * bs).
Proof.
  induction k as [|k IH]; intros fin rem Hbs Hrem; simpl block_list.
  - simpl. lia.
  - rewrite length_app, block_length, Nat2Z.inj_add.
    destruct (Z.ltb_spec bs rem); rewrite IH by lia; lia.
Qed.

(** The loop of [wrapper]: every iteration succeeds, appends one block to
    the part [done] of [res] already written, and advances the one
    generator [r] by the draws of the block. *)
Lemma wrapper_loop n trend bs r z key :
  0 <= n + 50 -> 0 < bs -> regressors trend (n - 1) = Ok z ->
  forall (js : list Z) (l : locals) (e : Engine) (done : list F),
    res l = done ++ zeros (Z.to_nat (remaining l)) ->
    Z.of_nat (length done) = finished l ->
    0 <= remaining l ->
    (r < length (heap e))%nat ->
    get_gen (Obj r) e = {| rs_key := key; rs_drawn := (n + 50) * finished l |} ->
    exists l',
      for_each js (wrapper_block normal_stream pinv n trend bs r) l e
      = (Ok l',
         {| np_random := np_random e;
            heap := list_set r
                      {| rs_key := key;
                         rs_drawn := (n + 50) * (finished l
                            + Z.min (remaining l) (Z.of_nat (length js) * bs)) |}
                      (heap e);
            os_entropy := os_entropy e;
            adf_calls := adf_calls e ++ repeat (Some r) (length js) |})
      /\ res l'
         = done
             ++ block_list normal_stream pinv (length js) z key n bs
                  (finished l) (remaining l)
             ++ zeros (Z.to_nat (remaining l - Z.of_nat (length js) * bs)).
Proof.
  intros Hn Hbs Hz.
  induction js as [|j js IH]; intros l e done Hres Hfin Hrem Hr Hg.
  - exists l. split.
    + simpl. unfold ret. f_equal. destruct e as [g hp oe calls]. simpl in *.
      f_equal; [|now rewrite app_nil_r].
      replace (Z.min (remaining l) 0) with 0 by lia.
      rewrite Z.add_0_r. unfold get_gen in Hg. rewrite <- Hg.
      clear -Hr. revert r Hr. induction hp as [|x hp IHh]; intros [|r] Hr;
        simpl in *; try lia; auto. f_equal. apply IHh. lia.
    + simpl. rewrite Hres. f_equal. f_equal. f_equal. lia.
  - set (count := if bs <? remaining l then bs else remaining l).
    assert (Hc : 0 <= count <= remaining l /\ count <= bs
                 /\ count = Z.min bs (remaining l)).
    { unfold count. destruct (Z.ltb_spec bs (remaining l)); lia. }
    set (v := block normal_stream pinv z key ((n + 50) * finished l) n count).
    assert (Hv : length v = Z.to_nat count) by apply block_length.
    set (e1 := {| np_random := np_random e;
                  heap := list_set r
                            {| rs_key := key;
                               rs_drawn := (n + 50) * finished l + (n + 50) * count |}
                            (heap e);
                  os_entropy := os_entropy e;
                  adf_calls := adf_calls e ++ [Some r] |}).
    set (l1 := {| res := done ++ v ++ zeros (Z.to_nat (remaining l - count));
                  finished := finished l + count;
                  remaining := remaining l - count |}).
    assert (Hstep : wrapper_block normal_stream pinv n trend bs r j l e = (Ok l1, e1)).
    { unfold wrapper_block, bind. fold count.
      rewrite (adf_simulation_some normal_stream pinv n trend count r e z)
        by (assumption || lia).
      rewrite Hg. simpl rs_key. simpl rs_drawn. fold v.
      unfold lift, ret. rewrite Hres, <- Hfin.
      replace count with (Z.of_nat (length v)) at 1 by lia.
      rewrite slice_assign_block
        by (unfold zeros; rewrite repeat_length; lia).
      rewrite skipn_zeros, Hv. unfold l1, e1.
      replace (Z.to_nat (remaining l) - Z.to_nat count)%nat
        with (Z.to_nat (remaining l - count)) by lia.
      rewrite Hfin. reflexivity. }
    destruct (IH l1 e1 (done ++ v)) as [l' [Hrun Hres']].
    + unfold l1. simpl. now rewrite <- app_assoc.
    + unfold l1. simpl. rewrite length_app, Nat2Z.inj_add. lia.
    + unfold l1. simpl. lia.
    + unfold e1. simpl. now rewrite length_list_set.
    + unfold e1, l1, get_gen. simpl. rewrite nth_list_set by assumption.
      f_equal. ring.
    + exists l'. split.
      * simpl for_each. unfold bind at 1. rewrite Hstep, Hrun.
        unfold e1, l1.
        cbn [np_random heap os_entropy adf_calls finished remaining length].
        f_equal. f_equal.
        -- rewrite list_set_twice. f_equal. f_equal. f_equal. lia.
        -- rewrite <- app_assoc. reflexivity.
      * rewrite Hres'. unfold l1.
        cbn [finished remaining length block_list]. fold count. fold v.
        rewrite <- !app_assoc. f_equal. f_equal. f_equal. f_equal.
        lia.
Qed.


Lemma range_len_covers b bs :
  0 <= b -> 0 < bs -> b <= Z.of_nat (Z.to_nat (range_len 0 b bs)) * bs.
Proof.
  intros Hb Hbs. unfold range_len.
  assert (E : (0 <? bs) = true) by (apply Z.ltb_lt; lia). rewrite E. simpl andb.
  destruct (Z.ltb_spec 0 b) as [Hpos|Hle].
  - pose proof (Z.div_mod (b - 1 - 0) bs ltac:(lia)) as Hd.
    pose proof (Z.mod_pos_bound (b - 1 - 0) bs Hbs) as Hm.
    assert (0 <= (b - 1 - 0) / bs) by (apply Z.div_pos; lia).
    rewrite Z2Nat.id by lia. nia.
  - destruct ((bs <? 0) && (b <? 0)).
    + pose proof (Z.div_mod (0 - 1 - b) (- bs)) as Hd. lia.
    + simpl. lia.
Qed.

Lemma range_len_single b bs :
  0 < b -> b <= bs -> range_len 0 b bs = 1.
Proof.
  intros Hb Hbs. unfold range_len.
  assert (E1 : (0 <? bs) = true) by (apply Z.ltb_lt; lia).
  assert (E2 : (0 <? b) = true) by (apply Z.ltb_lt; lia).
  rewrite E1, E2. simpl. rewrite Z.div_small by lia. reflexivity.
Qed.

Lemma range_len_empty bs : range_len 0 0 bs = 0.
Proof.
  unfold range_len. rewrite Z.ltb_irrefl, !andb_false_r. reflexivity.
Qed.

Lemma py_range_length start stop step js :
  py_range start stop step = Ok js ->
  length js = Z.to_nat (range_len start stop step).
Proof.
  unfold py_range. destruct (step =? 0); [discriminate|].
  intros E; injection E as <-. now rewrite length_map, length_seq.
Qed.

(** [wrapper] on valid arguments, with a positive block size: the result is
    the concatenation of the blocks, all drawn from the generator that
    [wrapper] allocates and seeds, which is left after [(n + 50) * b]
    deviates. *)
Lemma wrapper_run M n trend b rng_seed e bs z :
  0 < n -> 0 <= b -> block_size M n = Ok bs -> 0 < bs ->
  regressors trend (n - 1) = Ok z ->
  wrapper normal_stream pinv M n trend b rng_seed e
  = (Ok (block_list normal_stream pinv (Z.to_nat (range_len 0 b bs)) z
           rng_seed n bs 0 b),
     {| np_random := np_random e;
        heap := heap e ++ [{| rs_key := rng_seed; rs_drawn := (n + 50) * b |}];
        os_entropy := os_entropy e;
        adf_calls := adf_calls e
                       ++ repeat (Some (length (heap e)))
                            (Z.to_nat (range_len 0 b bs)) |}).
Proof.
  intros Hn Hb Hbs Hpos Hz.
  unfold wrapper, bind at 1, RandomState_new.
  unfold bind at 1, rs_seed, set_gen.
  cbn [np_random heap os_entropy adf_calls].
  rewrite list_set_last.
  unfold bind at 1, lift at 1, np_zeros.
  assert (E : (b <? 0) = false) by (apply Z.ltb_ge; lia). rewrite E.
  unfold bind at 1, lift at 1. rewrite Hbs.
  unfold bind at 1, lift at 1.
  destruct (py_range 0 b bs) as [js|err] eqn:Hjs;
    [|unfold py_range in Hjs;
      assert (E0 : (bs =? 0) = false) by (apply Z.eqb_neq; lia);
      rewrite E0 in Hjs; discriminate].
  apply py_range_length in Hjs.
  set (e2 := {| np_random := np_random e;
                heap := heap e ++ [seeded rng_seed];
                os_entropy := os_entropy e;
                adf_calls := adf_calls e |}).
  set (l0 := {| res := zeros (Z.to_nat b); finished := 0; remaining := b |}).
  destruct (wrapper_loop n trend bs (length (heap e)) z rng_seed
              ltac:(lia) Hpos Hz js l0 e2 [])
    as [l' [Hrun Hres]].
  - reflexivity.
  - reflexivity.
  - simpl. lia.
  - unfold e2. simpl. rewrite length_app. simpl. lia.
  - unfold e2, get_gen. cbn [heap]. rewrite nth_last. unfold seeded, l0.
    cbn [finished]. now rewrite Z.mul_0_r.
  - unfold bind. rewrite Hrun. unfold ret.
    pose proof (range_len_covers b bs Hb Hpos) as Hcov.
    rewrite Hres, Hjs. unfold l0, e2.
    cbn [np_random heap os_entropy adf_calls finished remaining app].
    f_equal.
    + f_equal.
      replace (Z.to_nat (b - Z.of_nat (Z.to_nat (range_len 0 b bs)) * bs))
        with 0%nat by lia.
      apply app_nil_r.
    + f_equal. rewrite list_set_last. f_equal. f_equal. f_equal. f_equal. lia.
Qed.

Lemma wrapper_length M n trend b rng_seed e bs :
  0 < n -> 0 <= b -> block_size M n = Ok bs -> 0 < bs ->
  exists v, fst (wrapper normal_stream pinv M n trend b rng_seed e) = Ok v
            /\ length v = Z.to_nat b.
Proof.
  intros Hn Hb Hbs Hpos.
  destruct (regressors_valid trend (n - 1)) as [z Hz]; [lia|].
  rewrite (wrapper_run M n trend b rng_seed e bs z) by assumption.
  eexists. split; [reflexivity|].
  pose proof (block_list_length z rng_seed n bs
                (Z.to_nat (range_len 0 b bs)) 0 b Hpos Hb) as Hl.
  pose proof (range_len_covers b bs Hb Hpos). lia.
Qed.

(** With a block size of at least [b], [wrapper] runs one block. *)
Lemma block_list_single z key n bs b :
  0 <= b -> b <= bs -> 0 < bs ->
  block_list normal_stream pinv (Z.to_nat (range_len 0 b bs)) z key n bs 0 b
  = block normal_stream pinv z key 0 n b.
Proof.
  intros Hb Hle Hpos.
  destruct (Z.eq_dec b 0) as [->|Hne].
  - rewrite range_len_empty. simpl.
    pose proof (block_length normal_stream pinv z key 0 n 0) as Hl.
    destruct (block normal_stream pinv z key 0 n 0); [reflexivity|discriminate].
  - rewrite range_len_single by lia. simpl block_list.
    assert (E : (bs <? b) = false) by (apply Z.ltb_ge; lia). rewrite E.
    rewrite Z.mul_0_r. apply app_nil_r.
Qed.


Lemma range_len_succ b bs :
  0 < b -> 0 < bs -> exists k, Z.to_nat (range_len 0 b bs) = S k.
Proof.
  intros Hb Hbs. pose proof (range_len_covers b bs ltac:(lia) Hbs) as Hc.
  destruct (Z.to_nat (range_len 0 b bs)) as [|k]; [simpl in Hc; lia|].
  now exists k.
Qed.

(** Position [j] of the concatenated blocks: the statistic of column
    [j mod bs] of the block number [j / bs], which starts after
    [(j / bs) * bs] statistics and has [min bs (rem - (j / bs) * bs)]
    columns. *)
Lemma block_list_nth z key n bs : forall k fin rem j,
  0 < bs -> 0 <= rem -> Z.of_nat j < Z.min rem (Z.of_nat k * bs) ->
  nth j (block_list normal_stream pinv k z key n bs fin rem) fzero
  = column_statistic pinv z
      (normal_column normal_stream key
         ((n + 50) * (fin + Z.of_nat j / bs * bs))
         (Z.to_nat (n + 50))
         (Z.to_nat (Z.min bs (rem - Z.of_nat j / bs * bs)))
         (Z.to_nat (Z.of_nat j mod bs))).
Proof.
  induction k as [|k IH]; intros fin rem j Hbs Hrem Hj; [simpl in Hj; lia|].
  cbn [block_list].
  assert (E : (if bs <? rem then bs else rem) = Z.min bs rem)
    by (destruct (Z.ltb_spec bs rem); lia).
  rewrite E.
  destruct (Z.lt_ge_cases (Z.of_nat j) (Z.min bs rem)) as [Hlt|Hge].
  - rewrite app_nth1 by (rewrite block_length; lia).
    rewrite block_nth by lia.
    rewrite Z.div_small, Z.mod_small by lia.
    rewrite Z.mul_0_l, Z.add_0_r, Z.sub_0_r, Nat2Z.id. reflexivity.
  - assert (Hmin : Z.min bs rem = bs) by lia.
    rewrite Hmin in *.
    rewrite app_nth2 by (rewrite block_length; lia).
    rewrite block_length.
    assert (Hsub : Z.of_nat (j - Z.to_nat bs) = Z.of_nat j - bs) by lia.
    rewrite IH by lia. rewrite Hsub.
    replace (Z.of_nat j - bs) with (Z.of_nat j + (-1) * bs) by lia.
    rewrite Z.div_add, Z.mod_add by lia.
    f_equal. f_equal; [f_equal; lia|f_equal; lia].
Qed.

(** The statistic [j] of [wrapper]: the budget enters through the block
    size, which fixes the block of [j], the number of columns of that block
    and so the deviates of the stream the statistic is computed from. *)
Lemma wrapper_nth M n trend b rng_seed e bs z j :
  0 < n -> 0 <= b -> block_size M n = Ok bs -> 0 < bs ->
  regressors trend (n - 1) = Ok z ->
  Z.of_nat j < b ->
  exists v,
    fst (wrapper normal_stream pinv M n trend b rng_seed e) = Ok v
    /\ nth j v fzero
       = column_statistic pinv z
           (normal_column normal_stream rng_seed
              ((n + 50) * (Z.of_nat j / bs * bs))
              (Z.to_nat (n + 50))
              (Z.to_nat (Z.min bs (b - Z.of_nat j / bs * bs)))
              (Z.to_nat (Z.of_nat j mod bs))).
Proof.
  intros Hn Hb Hbs Hpos Hz Hj.
  rewrite (wrapper_run M n trend b rng_seed e bs z) by assumption.
  eexists. split; [reflexivity|].
  pose proof (range_len_covers b bs Hb Hpos).
  rewrite block_list_nth by lia.
  now rewrite Z.add_0_l.
Qed.

(** C1, as the code has it: for valid arguments and a fixed seed, two
    budgets return the same vector of [b] statistics when they give the
    same positive block size, or two block sizes of at least [b] (a single
    block).  The block size is otherwise visible in the result: the
    statistic [j] is that of column [j mod bs] of the block [j / bs], an
    array of [min bs (b - (j / bs) * bs)] columns filled row by row from
    the stream. *)
Theorem wrapper_budget M1 M2 n trend b rng_seed e1 e2 bs1 bs2 :
  0 < n -> 0 <= b ->
  block_size M1 n = Ok bs1 -> block_size M2 n = Ok bs2 ->
  0 < bs1 -> 0 < bs2 ->
  bs1 = bs2 \/ (b <= bs1 /\ b <= bs2) ->
  exists z v,
    regressors trend (n - 1) = Ok z
    /\ fst (wrapper normal_stream pinv M1 n trend b rng_seed e1) = Ok v
    /\ fst (wrapper normal_stream pinv M2 n trend b rng_seed e2) = Ok v
    /\ length v = Z.to_nat b
    /\ forall j, Z.of_nat j < b ->
         nth j v fzero
         = column_statistic pinv z
             (normal_column normal_stream rng_seed
                ((n + 50) * (Z.of_nat j / bs1 * bs1))
                (Z.to_nat (n + 50))
                (Z.to_nat (Z.min bs1 (b - Z.of_nat j / bs1 * bs1)))
                (Z.to_nat (Z.of_nat j mod bs1))).
Proof.
  intros Hn Hb H1 H2 P1 P2 Hsame.
  destruct (regressors_valid trend (n - 1)) as [z Hz]; [lia|].
  destruct (wrapper_length M1 n trend b rng_seed e1 bs1 Hn Hb H1 P1)
    as [v [Hv Hl]].
  exists z, v. repeat split; try assumption.
  - rewrite (wrapper_run M1 n trend b rng_seed e1 bs1 z) in Hv by assumption.
    rewrite (wrapper_run M2 n trend b rng_seed e2 bs2 z) by assumption.
    cbn [fst] in *. rewrite <- Hv. f_equal.
    destruct Hsame as [->|[L1 L2]]; [reflexivity|].
    now rewrite !block_list_single by assumption.
  - intros j Hj.
    destruct (wrapper_nth M1 n trend b rng_seed e1 bs1 z j)
      as [v' [Hv' Hn']]; try assumption.
    rewrite Hv in Hv'. injection Hv' as <-. exact Hn'.
Qed.

(** *** The calls of [adf_simulation] that [wrapper] makes *)

Lemma adf_simulation_log n trend b r e :
  adf_calls (snd (adf_simulation normal_stream pinv n trend b (Some r) e))
  = adf_calls e ++ [Some r]
  /\ np_random (snd (adf_simulation normal_stream pinv n trend b (Some r) e))
     = np_random e.
Proof.
  unfold adf_simulation, bind, log_call, ret, lift, standard_normal.
  cbn [fst snd]. destruct (regressors trend (n - 1)) as [z|err]; [|split; reflexivity].
  destruct ((n + 50 <? 0) || (b <? 0)); split; reflexivity.
Qed.

Lemma wrapper_block_log n trend bs r j l e :
  adf_calls (snd (wrapper_block normal_stream pinv n trend bs r j l e))
  = adf_calls e ++ [Some r]
  /\ np_random (snd (wrapper_block normal_stream pinv n trend bs r j l e))
     = np_random e.
Proof.
  unfold wrapper_block, bind.
  pose proof (adf_simulation_log n trend
                (if bs <? remaining l then bs else remaining l) r e) as Hlog.
  destruct (adf_simulation normal_stream pinv n trend
              (if bs <? remaining l then bs else remaining l) (Some r) e)
    as [[v|err] e1]; cbn [snd] in *; [|exact Hlog].
  unfold lift, ret. destruct (slice_assign _ _ _ _); exact Hlog.
Qed.

Lemma wrapper_loop_log n trend bs r : forall js l e,
  exists k,
    adf_calls (snd (for_each js (wrapper_block normal_stream pinv n trend bs r) l e))
    = adf_calls e ++ repeat (Some r) k
    /\ np_random (snd (for_each js (wrapper_block normal_stream pinv n trend bs r) l e))
       = np_random e.
Proof.
  induction js as [|j js IH]; intros l e.
  - exists 0%nat. simpl. now rewrite app_nil_r.
  - cbn [for_each]. unfold bind.
    destruct (wrapper_block_log n trend bs r j l e) as [Hc Hg].
    destruct (wrapper_block normal_stream pinv n trend bs r j l e)
      as [[l1|err] e1]; cbn [snd] in *.
    + destruct (IH l1 e1) as [k [Hc' Hg']]. exists (S k).
      rewrite Hc', Hg', Hc, Hg, <- app_assoc. split; reflexivity.
    + exists 1%nat. split; assumption.
Qed.

Lemma wrapper_log M n trend b rng_seed e :
  exists k,
    adf_calls (snd (wrapper normal_stream pinv M n trend b rng_seed e))
    = adf_calls e ++ repeat (Some (length (heap e))) k
    /\ np_random (snd (wrapper normal_stream pinv M n trend b rng_seed e))
       = np_random e.
Proof.
  remember (snd (wrapper normal_stream pinv M n trend b rng_seed e)) as e' eqn:He'.
  unfold wrapper, bind at 1, RandomState_new in He'.
  unfold bind at 1, rs_seed, set_gen in He'.
  cbn [np_random heap os_entropy adf_calls] in He'.
  unfold bind at 1, lift at 1 in He'.
  destruct (np_zeros b) as [res0|err];
    [|exists 0%nat; subst e'; cbn [snd adf_calls np_random];
      now rewrite app_nil_r].
  unfold bind at 1, lift at 1 in He'.
  destruct (block_size M n) as [bs|err];
    [|exists 0%nat; subst e'; cbn [snd adf_calls np_random];
      now rewrite app_nil_r].
  unfold bind at 1, lift at 1 in He'.
  destruct (py_range 0 b bs) as [js|err];
    [|exists 0%nat; subst e'; cbn [snd adf_calls np_random];
      now rewrite app_nil_r].
  unfold bind, ret in He'.
  match type of He' with
  | context [for_each js ?body ?l0 ?e0] =>
      destruct (wrapper_loop_log n trend bs (length (heap e)) js l0 e0)
        as [k [Hc Hg]];
      destruct (for_each js body l0 e0) as [[l'|err] e1]
  end; exists k; subst e'; cbn [snd adf_calls np_random] in *;
    split; assumption.
Qed.

(** C10: whatever the arguments, every call of [adf_simulation] that
    [wrapper] makes receives the object [wrapper] has just allocated (the
    reference [length (heap e)], which no earlier object has), never
    [None], and numpy's global generator is left as it was.  On valid
    arguments the blocks are drawn one after the other from the stream of
    [rng_seed]: the block that follows [fin] statistics starts at deviate
    [(n + 50) * fin], and the generator ends after [(n + 50) * b]
    deviates. *)
Theorem wrapper_single_generator M n trend b rng_seed e :
  (exists k,
     adf_calls (snd (wrapper normal_stream pinv M n trend b rng_seed e))
     = adf_calls e ++ repeat (Some (length (heap e))) k)
  /\ np_random (snd (wrapper normal_stream pinv M n trend b rng_seed e))
     = np_random e
  /\ (forall bs z,
        0 < n -> 0 <= b -> block_size M n = Ok bs -> 0 < bs ->
        regressors trend (n - 1) = Ok z ->
        fst (wrapper normal_stream pinv M n trend b rng_seed e)
        = Ok (block_list normal_stream pinv (Z.to_nat (range_len 0 b bs)) z
                rng_seed n bs 0 b)
        /\ heap (snd (wrapper normal_stream pinv M n trend b rng_seed e))
           = heap e ++ [{| rs_key := rng_seed; rs_drawn := (n + 50) * b |}]
        /\ adf_calls (snd (wrapper normal_stream pinv M n trend b rng_seed e))
           = adf_calls e
               ++ repeat (Some (length (heap e))) (Z.to_nat (range_len 0 b bs))).
Proof.
  destruct (wrapper_log M n trend b rng_seed e) as [k [Hc Hg]].
  split; [now exists k|]. split; [exact Hg|].
  intros bs z Hn Hb Hbs Hpos Hz.
  rewrite (wrapper_run M n trend b rng_seed e bs z) by assumption.
  repeat split.
Qed.

End WrapperFacts.

(** ** Arguments outside the contract *)

Section ValidationFacts.
Context {F : Type} `{Arith F}.

Variable normal_stream : Z -> Z -> F.
Variable pinv : list (list F) -> list (list F).

Lemma for_each_ext {W A S} (f g : A -> S -> St W S) :
  (forall x s w, f x s w = g x s w) ->
  forall xs s w, for_each xs f s w = for_each xs g s w.
Proof.
  intros Hfg. induction xs as [|x xs IH]; intros s w; [reflexivity|].
  cbn [for_each]. unfold bind. rewrite Hfg.
  destruct (g x s w) as [[s'|err] w']; [apply IH|reflexivity].
Qed.

Lemma regressors_other trend nobs :
  trend <> "c"%string -> trend <> "ct"%string -> trend <> "ctt"%string ->
  @regressors F _ trend nobs = Ok None.
Proof.
  intros H1 H2 H3. unfold regressors.
  apply String.eqb_neq in H1, H2, H3. now rewrite H1, H2, H3.
Qed.

Lemma adf_simulation_other n trend b rng e :
  trend <> "c"%string -> trend <> "ct"%string -> trend <> "ctt"%string ->
  adf_simulation normal_stream pinv n trend b rng e
  = adf_simulation normal_stream pinv n "nc" b rng e.
Proof.
  intros H1 H2 H3. unfold adf_simulation.
  now rewrite (regressors_other trend) by assumption.
Qed.

Lemma wrapper_other M n trend b rng_seed e :
  trend <> "c"%string -> trend <> "ct"%string -> trend <> "ctt"%string ->
  wrapper normal_stream pinv M n trend b rng_seed e
  = wrapper normal_stream pinv M n "nc" b rng_seed e.
Proof.
  intros H1 H2 H3. unfold wrapper, bind, RandomState_new, rs_seed, lift.
  destruct (np_zeros b) as [res0|err]; [|reflexivity].
  destruct (block_size M n) as [bs|err]; [|reflexivity].
  destruct (py_range 0 b bs) as [js|err]; [|reflexivity].
  rewrite (for_each_ext
             (wrapper_block normal_stream pinv n trend bs (length (heap e)))
             (wrapper_block normal_stream pinv n "nc" bs (length (heap e)))).
  - reflexivity.
  - intros j l w. unfold wrapper_block, bind.
    now rewrite adf_simulation_other by assumption.
Qed.

Lemma block_size_negative M n :
  n < 0 -> 8 * - n <= 2 ^ 20 * M ->
  exists bs, block_size M n = Ok bs /\ bs < 0.
Proof.
  intros Hn HM. unfold block_size.
  assert (E : (n =? 0) = false) by (apply Z.eqb_neq; lia). rewrite E.
  eexists. split; [reflexivity|].
  replace (8 * n) with (- (8 * - n)) by lia.
  rewrite Z.quot_opp_r by lia.
  rewrite Z.quot_div_nonneg by lia.
  assert (1 <= 2 ^ 20 * M / (8 * - n)) by (apply Z.div_le_lower_bound; lia).
  lia.
Qed.

(** C3, as the code has it: [wrapper] checks none of its arguments.  A
    negative number of draws fails in [zeros(b)] (a [ValueError] of numpy),
    a zero length fails in the division of line 62, a negative length whose
    block size is negative runs no block and returns [b] zeros, and a trend
    outside the enumeration is run as ['nc']. *)
Theorem wrapper_without_validation M n trend b rng_seed e :
  (b < 0 ->
   fst (wrapper normal_stream pinv M n trend b rng_seed e) = Raise ValueError)
  /\ (0 <= b -> n = 0 ->
      fst (wrapper normal_stream pinv M n trend b rng_seed e)
      = Raise ZeroDivisionError)
  /\ (0 <= b -> n < 0 -> 8 * - n <= 2 ^ 20 * M ->
      fst (wrapper normal_stream pinv M n trend b rng_seed e)
      = Ok (zeros (Z.to_nat b)))
  /\ (trend <> "c"%string -> trend <> "ct"%string -> trend <> "ctt"%string ->
      wrapper normal_stream pinv M n trend b rng_seed e
      = wrapper normal_stream pinv M n "nc" b rng_seed e).
Proof.
  split; [|split; [|split]].
  - intros Hb. unfold wrapper, bind, RandomState_new, rs_seed, lift, np_zeros.
    assert (E : (b <? 0) = true) by (apply Z.ltb_lt; lia).
    now rewrite E.
  - intros Hb ->. unfold wrapper, bind, RandomState_new, rs_seed, lift, np_zeros.
    assert (E : (b <? 0) = false) by (apply Z.ltb_ge; lia).
    now rewrite E.
  - intros Hb Hn HM.
    destruct (block_size_negative M n Hn HM) as [bs [Hbs Hneg]].
    unfold wrapper, bind, RandomState_new, rs_seed, lift, np_zeros.
    assert (E : (b <? 0) = false) by (apply Z.ltb_ge; lia).
    rewrite E, Hbs. unfold py_range, range_len.
    assert (E0 : (bs =? 0) = false) by (apply Z.eqb_neq; lia).
    assert (E1 : (0 <? bs) = false) by (apply Z.ltb_ge; lia).
    rewrite E0, E1, E. rewrite andb_false_r. reflexivity.
  - apply wrapper_other.
Qed.

End ValidationFacts.

(** ** The driver: seeds *)

Lemma zip4_nth_error {A B C D} (a : list A) (b : list B) (c : list C) (d : list D)
    k x y z w :
  nth_error a k = Some x -> nth_error b k = Some y ->
  nth_error c k = Some z -> nth_error d k = Some w ->
  nth_error (zip4 a b c d) k = Some (x, y, z, w).
Proof.
  revert b c d k.
  induction a as [|a0 a IH]; intros [|b0 b] [|c0 c] [|d0 d] [|k];
    simpl; try discriminate.
  - now intros [= ->] [= ->] [= ->] [= ->].
  - apply IH.
Qed.

Lemma zip4_length {A B C D} (a : list A) (b : list B) (c : list C) (d : list D) k :
  length a = k -> length b = k -> length c = k -> length d = k ->
  length (zip4 a b c d) = k.
Proof.
  revert a b c d.
  induction k as [|k IH]; intros [|a0 a] [|b0 b] [|c0 c] [|d0 d];
    simpl; try discriminate; auto.
Qed.

Lemma nth_error_repeat {A} (x : A) k m :
  (k < m)%nat -> nth_error (repeat x m) k = Some x.
Proof.
  revert k; induction m as [|m IH]; intros [|k] Hk; simpl; try lia; auto.
  apply IH. lia.
Qed.

Lemma nth_error_map_seq {A} (f : nat -> A) k m :
  (k < m)%nat -> nth_error (map f (seq 0 m)) k = Some (f k).
Proof.
  intros Hk. rewrite nth_error_map, nth_error_seq.
  destruct (Nat.ltb_spec k m); [reflexivity|lia].
Qed.

Lemma seeds_length (int_stream : Z -> nat -> Z) cfg :
  length (seeds int_stream cfg) = EX_NUM cfg.
Proof. unfold seeds. now rewrite length_map, length_seq. Qed.

Lemma map_async_args_length cfg t tr sds :
  length sds = EX_NUM cfg -> length (map_async_args cfg t tr sds) = EX_NUM cfg.
Proof.
  intros Hs. unfold map_async_args.
  apply zip4_length; auto using repeat_length.
Qed.

(** C2, as the code has it: the replication [k] of every round is given the
    seed at position [k] of the master sequence, drawn once before the
    loops: the position is the index of the replication, distinct for the
    [EX_NUM] replications of one round and the same in every round,
    whatever the trend and the length. *)
Theorem seed_of_replication (int_stream : Z -> nat -> Z) cfg tr i k t :
  nth_error (T cfg) i = Some t -> (k < EX_NUM cfg)%nat ->
  nth_error (map_async_args cfg t tr (seeds int_stream cfg)) k
  = Some (t, tr, EX_SIZE cfg, int_stream 0 k)
  /\ seed_of cfg (seeds int_stream cfg) tr i k = nth_error (seeds int_stream cfg) k
  /\ nth_error (seeds int_stream cfg) k = Some (int_stream 0 k).
Proof.
  intros Ht Hk.
  assert (Hs : nth_error (seeds int_stream cfg) k = Some (int_stream 0 k))
    by (unfold seeds; now apply nth_error_map_seq).
  assert (Ha : nth_error (map_async_args cfg t tr (seeds int_stream cfg)) k
               = Some (t, tr, EX_SIZE cfg, int_stream 0 k)).
  { unfold map_async_args.
    apply zip4_nth_error; auto using nth_error_repeat. }
  split; [exact Ha|]. split; [|exact Hs].
  unfold seed_of. now rewrite Ht, Ha, Hs.
Qed.

Lemma seed_of_replication_witness :
  seed_of source_config (seeds position_ints source_config) "ct" 30 499
  = nth_error (seeds position_ints source_config) 499.
Proof.
  apply (seed_of_replication position_ints source_config "ct" 30 499 20).
  - reflexivity.
  - apply Nat.ltb_lt. reflexivity.
Defined.

(** C2 as the specification states it fails: on the grid of the 4 trends,
    31 lengths and 500 replications, with the master sequence whose value at
    every position is that position, two different triples are given the
    same seed: position 0 serves the first replication of every round. *)
Lemma seed_of_distinct_cex :
  ~ (forall tr1 i1 k1 tr2 i2 k2,
       In tr1 (trends source_config) -> In tr2 (trends source_config) ->
       (i1 < 31)%nat -> (i2 < 31)%nat -> (k1 < 500)%nat -> (k2 < 500)%nat ->
       (tr1, i1, k1) <> (tr2, i2, k2) ->
       seed_of source_config (seeds position_ints source_config) tr1 i1 k1
       <> seed_of source_config (seeds position_ints source_config) tr2 i2 k2).
Proof.
  intros Hall.
  apply (Hall "nc"%string 0%nat 0%nat "c"%string 0%nat 0%nat).
  - simpl. auto.
  - simpl. auto.
  - lia.
  - lia.
  - lia.
  - lia.
  - discriminate.
  - reflexivity.
Qed.

(** ** The driver: [clear_cache] *)

Section CacheFacts.
Context {F : Type} `{Float64 F}.

(** The assertion reads [rc], whatever client is passed. *)
Lemma clear_cache_reads_rc (client view : nat) (d : Driver F) :
  outstanding (get_client rc d) <> [] ->
  clear_cache client view d = (Raise AssertionError, d).
Proof.
  intros Hout. unfold clear_cache.
  destruct (outstanding (get_client rc d)); [contradiction|reflexivity].
Qed.

Lemma get_client_set (c : nat) (x : Client F) (d : Driver F) :
  (c < length (clients d))%nat -> get_client c (set_client c x d) = x.
Proof.
  intros Hc. unfold get_client, set_client. cbn [clients].
  now apply nth_list_set.
Qed.

Lemma get_view_set (v : nat) (x : View F) (d : Driver F) :
  (v < length (views d))%nat -> get_view v (set_view v x d) = x.
Proof.
  intros Hv. unfold get_view, set_view. cbn [views].
  now apply nth_list_set.
Qed.

(** C7: [clear_cache] on the pool [rc] of the driver.  With a task
    outstanding the assertion fails and nothing is purged: the state is
    the one before the call.  With none outstanding the call returns and
    the cached results, the metadata, the two histories, the digests and
    the records of the controller are empty, the files being untouched. *)
Theorem clear_cache_guard (view : nat) (d : Driver F) :
  (rc < length (clients d))%nat -> (view < length (views d))%nat ->
  (outstanding (get_client rc d) <> [] ->
   clear_cache rc view d = (Raise AssertionError, d))
  /\ (outstanding (get_client rc d) = [] ->
      exists d',
        clear_cache rc view d = (Ok tt, d')
        /\ c_results (get_client rc d') = []
        /\ c_metadata (get_client rc d') = []
        /\ c_history (get_client rc d') = []
        /\ digest_history (get_client rc d') = []
        /\ controller_db (get_client rc d') = []
        /\ outstanding (get_client rc d') = []
        /\ v_results (get_view view d') = []
        /\ v_history (get_view view d') = []
        /\ disk d' = disk d).
Proof.
  intros Hc Hv. split.
  - apply clear_cache_reads_rc.
  - intros Hout. exists (purge rc view d). unfold clear_cache. rewrite Hout.
    split; [reflexivity|].
    unfold purge.
    assert (Hg : forall (x : View F) (d0 : Driver F),
               get_client rc (set_view view x d0) = get_client rc d0)
      by reflexivity.
    rewrite !Hg, !get_client_set by assumption.
    rewrite get_view_set by (cbn [views set_client]; assumption).
    cbn. repeat split. exact Hout.
Qed.

End CacheFacts.

Lemma clear_cache_guard_witness :
  fst (clear_cache rc lview
         (snd (map_async lview [(3, "nc"%string, 2, 0)] demo_driver)))
  = Raise AssertionError
  /\ fst (clear_cache rc lview demo_driver) = Ok tt.
Proof.
  split.
  - rewrite (proj1 (clear_cache_guard lview
                      (snd (map_async lview [(3, "nc"%string, 2, 0)] demo_driver))
                      ltac:(vm_compute; lia) ltac:(vm_compute; lia))).
    + reflexivity.
    + discriminate.
  - destruct (proj2 (clear_cache_guard lview demo_driver
                       ltac:(vm_compute; lia) ltac:(vm_compute; lia)) eq_refl)
      as [d' [Hrun _]].
    now rewrite Hrun.
Defined.

(** ** The percentile reduction, in exact arithmetic *)





















(** ** The driver: the table and its checkpoints *)

Lemma mapM_length {A B} (f : A -> result B) (xs : list A) (ys : list B) :
  mapM f xs = Ok ys -> length ys = length xs.
Proof.
  revert ys; induction xs as [|x xs IH]; intros ys; simpl.
  - now intros [= <-].
  - destruct (f x) as [y|err]; [|discriminate].
    destruct (mapM f xs) as [ys'|err]; [|discriminate].
    intros [= <-]. simpl. f_equal. now apply IH.
Qed.

Lemma mapM_ok {A B} (f : A -> result B) (xs : list A) :
  (forall x, In x xs -> exists y, f x = Ok y) -> exists ys, mapM f xs = Ok ys.
Proof.
  induction xs as [|x xs IH]; intros Hall; simpl.
  - now exists [].
  - destruct (Hall x (or_introl eq_refl)) as [y Hy]. rewrite Hy.
    destruct IH as [ys Hys]; [intros z Hz; apply Hall; now right|].
    rewrite Hys. now exists (y :: ys).
Qed.

Lemma filter_none {A} (f : A -> bool) (l : list A) :
  (forall x, In x l -> f x = false) -> filter f l = [].
Proof.
  induction l as [|x l IH]; intros Hall; simpl; [reflexivity|].
  rewrite (Hall x (or_introl eq_refl)). apply IH.
  intros y Hy. apply Hall. now right.
Qed.

Lemma zip4_In {A B C D} (a : list A) (b : list B) (c : list C) (d : list D)
    x y z w :
  In (x, y, z, w) (zip4 a b c d) -> In x a /\ In y b /\ In z c /\ In w d.
Proof.
  revert b c d.
  induction a as [|a0 a IH]; intros [|b0 b] [|c0 c] [|d0 d]; simpl;
    try contradiction.
  intros [[= -> -> -> ->]|Hin]; [tauto|].
  apply IH in Hin. tauto.
Qed.

Lemma for_each_app {W A S} (body : A -> S -> St W S) (xs ys : list A) s w :
  for_each (xs ++ ys) body s w
  = bind (for_each xs body s) (for_each ys body) w.
Proof.
  revert s w; induction xs as [|x xs IH]; intros s w; [reflexivity|].
  cbn [app for_each]. unfold bind.
  destruct (body x s w) as [[s'|err] w']; [|reflexivity].
  rewrite IH. reflexivity.
Qed.

Lemma firstn_succ {A} (l : list A) k x :
  nth_error l k = Some x -> firstn (S k) l = firstn k l ++ [x].
Proof.
  revert k; induction l as [|y l IH]; intros [|k]; simpl; try discriminate.
  - now intros [= ->].
  - intros Hk. f_equal. now apply IH.
Qed.

Lemma nth_error_combine_seq {A} (l : list A) a k x :
  nth_error l k = Some x ->
  nth_error (combine (seq a (length l)) l) k = Some ((a + k)%nat, x).
Proof.
  revert a k; induction l as [|y l IH]; intros a [|k]; simpl; try discriminate.
  - intros [= ->]. now rewrite Nat.add_0_r.
  - intros Hk. rewrite (IH (S a) k Hk). f_equal. f_equal. lia.
Qed.

Lemma repeat_as_map {A} (x : A) n a : repeat x n = map (fun _ => x) (seq a n).
Proof.
  revert a; induction n as [|n IH]; intros a; simpl; [reflexivity|].
  f_equal. apply IH.
Qed.

Lemma zip_with_map {A B C D} (f : B -> C -> D) (g : A -> B) (h : A -> C) l :
  zip_with f (map g l) (map h l) = map (fun x => f (g x) (h x)) l.
Proof. induction l as [|x l IH]; simpl; [reflexivity|]. now rewrite IH. Qed.

Lemma list_set_map_seq {A} (f : nat -> A) (v : A) k n a :
  (k < n)%nat ->
  list_set k v (map f (seq a n))
  = map (fun i => if Nat.eqb i (a + k) then v else f i) (seq a n).
Proof.
  revert k a; induction n as [|n IH]; intros k a Hk; [lia|].
  destruct k as [|k]; simpl.
  - rewrite Nat.add_0_r, Nat.eqb_refl. f_equal.
    apply map_ext_in. intros i Hi. apply in_seq in Hi.
    destruct (Nat.eqb_spec i a); [lia|reflexivity].
  - destruct (Nat.eqb_spec a (a + S k)); [lia|]. f_equal.
    rewrite IH by lia. apply map_ext. intros i.
    now replace (S a + k)%nat with (a + S k)%nat by lia.
Qed.

Section CheckpointFacts.
Context {F : Type} `{Float64 F}.

Variable normal_stream : Z -> Z -> F.
Variable pinv : list (list F) -> list (list F).
Variable percentile : list F -> list F -> list F.
Variable int_stream : Z -> nat -> Z.
Variable engine : Engine.
Variable cfg : Config.

(** [numpy.percentile] returns one value per level. *)
Hypothesis percentile_length :
  forall x q, length (percentile x q) = length q.

Local Abbreviation run := (run_task normal_stream pinv engine cfg).
Local Abbreviation sds := (seeds int_stream cfg).
Local Abbreviation levels := (length (@percentiles F _)).
Local Abbreviation table :=
  (table_after normal_stream pinv percentile int_stream engine cfg).
Local Abbreviation outs := (outputs normal_stream pinv int_stream engine cfg).

Lemma block_size_positive M t :
  0 < t -> 8 * t <= 2 ^ 20 * M ->
  exists bs, @block_size M t = Ok bs /\ 0 < bs.
Proof.
  intros Ht HM. unfold block_size.
  assert (E : (t =? 0) = false) by (apply Z.eqb_neq; lia). rewrite E.
  eexists. split; [reflexivity|].
  rewrite Z.quot_div_nonneg by lia.
  assert (1 <= 2 ^ 20 * M / (8 * t)) by (apply Z.div_le_lower_bound; lia).
  lia.
Qed.

(** Under [valid_config] every task of a round returns its vector. *)
Lemma tasks_succeed tr t :
  valid_config cfg -> In t (T cfg) ->
  exists out, mapM run (map_async_args cfg t tr sds) = Ok out.
Proof.
  intros [Hall [Hsize _]] Hin. apply mapM_ok.
  intros [[[n trend] b] s] Htask. unfold map_async_args in Htask.
  apply zip4_In in Htask. destruct Htask as [Hn [Htr [Hb _]]].
  apply repeat_spec in Hn, Htr, Hb. subst n trend b.
  rewrite Forall_forall in Hall. destruct (Hall t Hin) as [Hpos Hbud].
  destruct (block_size_positive (MAX_MEMORY_SIZE cfg) t Hpos Hbud) as [bs [Hbs Hbs0]].
  destruct (wrapper_length normal_stream pinv (MAX_MEMORY_SIZE cfg) t tr
              (EX_SIZE cfg) s engine bs Hpos Hsize Hbs Hbs0) as [v [Hv _]].
  exists v. exact Hv.
Qed.

Lemma tasks_length tr t out :
  mapM run (map_async_args cfg t tr sds) = Ok out -> length out = EX_NUM cfg.
Proof.
  intros Hout. apply mapM_length in Hout. rewrite Hout.
  apply map_async_args_length, seeds_length.
Qed.

(** *** The steps of a round *)

Lemma map_async_idle view ts (d : Driver F) :
  idle d ->
  exists d1,
    map_async view ts d = (Ok (seq (next_id (get_client rc d)) (length ts)), d1)
    /\ (rc < length (clients d1))%nat
    /\ outstanding (get_client rc d1) = seq (next_id (get_client rc d)) (length ts)
    /\ disk d1 = disk d.
Proof.
  intros [Hrc Hout]. eexists. split; [reflexivity|].
  unfold set_view, set_client, get_client. cbn [clients disk].
  rewrite length_list_set. split; [assumption|].
  rewrite nth_list_set by assumption. cbn [outstanding].
  unfold get_client in Hout. rewrite Hout. repeat split.
Qed.

Lemma get_idle view ids ts out (d : Driver F) :
  (rc < length (clients d))%nat -> outstanding (get_client rc d) = ids ->
  mapM run ts = Ok out ->
  exists d2,
    get normal_stream pinv engine cfg view ids ts d = (Ok out, d2)
    /\ idle d2 /\ disk d2 = disk d.
Proof.
  intros Hrc Hout Hrun. unfold get. rewrite Hrun. eexists. split; [reflexivity|].
  unfold idle, set_view, set_client, get_client. cbn [clients disk].
  rewrite length_list_set. split; [split; [assumption|]|reflexivity].
  rewrite nth_list_set by assumption. cbn [outstanding].
  unfold get_client in Hout. rewrite Hout.
  apply filter_none. intros x Hx.
  assert (E : existsb (Nat.eqb x) ids = true)
    by (apply existsb_exists; exists x; split; [assumption|apply Nat.eqb_refl]).
  now rewrite E.
Qed.

Lemma clear_cache_idle view (d : Driver F) :
  idle d ->
  clear_cache rc view d = (Ok tt, purge rc view d)
  /\ idle (purge rc view d) /\ disk (purge rc view d) = disk d.
Proof.
  intros [Hrc Hout]. unfold clear_cache. rewrite Hout.
  split; [reflexivity|]. split; [|reflexivity].
  unfold idle, purge, set_view, set_client, get_client in *. cbn [clients].
  rewrite length_list_set. split; [assumption|].
  rewrite nth_list_set by assumption. exact Hout.
Qed.

Lemma assign_length_ok (results : list (list (list F))) i (q : list (list F)) :
  length results = levels -> length q = EX_NUM cfg ->
  Forall (fun plane => (i < length plane)%nat) results ->
  assign_length cfg results i (transpose levels q)
  = Ok (zip_with (fun plane row => list_set i row plane) results
          (transpose levels q)).
Proof.
  intros Hr Hq Hp. unfold assign_length.
  assert (E1 : Nat.eqb (length (transpose levels q)) (length results) = true).
  { apply Nat.eqb_eq. unfold transpose. now rewrite length_map, length_seq. }
  assert (E2 : forallb (fun row => Nat.eqb (length row) (EX_NUM cfg))
                 (transpose levels q) = true).
  { apply forallb_forall. intros row Hrow. unfold transpose in Hrow.
    apply in_map_iff in Hrow. destruct Hrow as [j [<- _]].
    apply Nat.eqb_eq. now rewrite col_length. }
  assert (E3 : forallb (fun plane => Nat.ltb i (length plane)) results = true).
  { apply forallb_forall. intros plane Hplane.
    rewrite Forall_forall in Hp. apply Nat.ltb_lt. now apply Hp. }
  now rewrite E1, E2, E3.
Qed.

Lemma load_savez name (a : artifact F) (d : Driver F) :
  load name (snd (savez name a d)) = Some a.
Proof.
  unfold load, savez. cbn [snd disk find fst]. now rewrite String.eqb_refl.
Qed.

(** One round on an idle driver whose tasks succeed. *)
Lemma np_array_T_quantiles (out : list (list F)) :
  out <> [] ->
  np_array_T (quantiles percentile out)
  = Ok (transpose levels (quantiles percentile out)).
Proof.
  intros Hne. destruct out as [|x out]; [congruence|].
  unfold np_array_T, quantiles. cbn [map].
  rewrite percentile_length.
  assert (E : forallb (fun y => Nat.eqb (length y) levels)
                (percentile x percentiles
                   :: map (fun x0 => percentile x0 percentiles) out) = true).
  { apply forallb_forall. intros y Hy. apply Nat.eqb_eq.
    change (In y (map (fun x0 => percentile x0 percentiles) (x :: out))) in Hy.
    apply in_map_iff in Hy. destruct Hy as [x' [<- _]].
    apply percentile_length. }
  now rewrite E.
Qed.

Lemma round_run tr i t results out (d : Driver F) :
  idle d -> (0 < EX_NUM cfg)%nat ->
  mapM run (map_async_args cfg t tr sds) = Ok out ->
  length results = levels ->
  Forall (fun plane => (i < length plane)%nat) results ->
  exists d',
    round normal_stream pinv percentile int_stream engine cfg tr (i, t) results d
    = (Ok (zip_with (fun plane row => list_set i row plane) results
             (transpose levels (quantiles percentile out))), d')
    /\ idle d'
    /\ load (filename_of tr) d'
       = Some {| a_trend := tr;
                 a_results :=
                   zip_with (fun plane row => list_set i row plane) results
                     (transpose levels (quantiles percentile out));
                 a_percentiles := percentiles;
                 a_T := T cfg |}.
Proof.
  intros Hidle Hnum Hout Hr Hp.
  destruct (map_async_idle lview (map_async_args cfg t tr sds) d Hidle)
    as [d1 [H1 [Hrc1 [Hout1 _]]]].
  destruct (get_idle lview _ (map_async_args cfg t tr sds) out d1 Hrc1 Hout1 Hout)
    as [d2 [H2 [Hidle2 _]]].
  destruct (clear_cache_idle lview d2 Hidle2) as [H3 [Hidle3 _]].
  pose proof (tasks_length tr t out Hout) as Hlen.
  assert (Hq : length (quantiles percentile out) = EX_NUM cfg)
    by (unfold quantiles; now rewrite length_map).
  pose proof (assign_length_ok results i _ Hr Hq Hp) as H4.
  assert (Hne : out <> []) by (destruct out; [simpl in Hlen; lia|discriminate]).
  pose proof (np_array_T_quantiles out Hne) as H5.
  eexists. split; [|split].
  - unfold round. unfold bind at 1. rewrite H1.
    unfold bind at 1. rewrite H2.
    unfold bind at 1. rewrite H3.
    unfold bind at 1, lift at 1. rewrite H5.
    unfold bind at 1, lift at 1. rewrite H4.
    unfold bind, ret. reflexivity.
  - exact Hidle3.
  - apply load_savez.
Qed.

(** *** The table after [k] rounds *)

Lemma new_results_table tr :
  new_results cfg (length (T cfg)) = table tr 0%nat.
Proof.
  unfold new_results, table_after.
  rewrite (repeat_as_map _ _ 0). apply map_ext. intros p.
  rewrite (repeat_as_map _ _ 0). apply map_ext. intros i. reflexivity.
Qed.

Lemma table_length tr k : length (table tr k) = levels.
Proof. unfold table_after. now rewrite length_map, length_seq. Qed.

Lemma table_planes tr k i :
  (i < length (T cfg))%nat ->
  Forall (fun plane => (i < length plane)%nat) (table tr k).
Proof.
  intros Hi. unfold table_after. rewrite Forall_forall. intros plane Hplane.
  apply in_map_iff in Hplane. destruct Hplane as [p [<- _]].
  now rewrite length_map, length_seq.
Qed.

Lemma table_step tr k t out :
  nth_error (T cfg) k = Some t ->
  mapM run (map_async_args cfg t tr sds) = Ok out ->
  zip_with (fun plane row => list_set k row plane) (table tr k)
    (transpose levels (quantiles percentile out))
  = table tr (S k).
Proof.
  intros Ht Hout.
  assert (Hk : (k < length (T cfg))%nat)
    by (apply nth_error_Some; congruence).
  assert (Ho : outs tr k = out) by (unfold outputs; now rewrite Ht, Hout).
  unfold table_after, transpose. rewrite zip_with_map.
  apply map_ext. intros p.
  rewrite list_set_map_seq by assumption.
  apply map_ext_in. intros i Hi. cbn [Nat.add].
  destruct (Nat.eqb_spec i k) as [->|Hne].
  - assert (E : Nat.ltb k (S k) = true) by (apply Nat.ltb_lt; lia).
    rewrite E, Ho. reflexivity.
  - destruct (Nat.ltb_spec i k), (Nat.ltb_spec i (S k)); try lia; reflexivity.
Qed.

(** The rounds for the first [k] lengths all complete and leave the table
    [table tr k], an idle pool and, once a round is done, the file of the
    trend holding that table. *)
Lemma rounds_run tr : forall k (d0 : Driver F),
  valid_config cfg -> idle d0 -> (k <= length (T cfg))%nat ->
  exists d,
    rounds normal_stream pinv percentile int_stream engine cfg tr
      (firstn k (enumerate_T cfg)) (new_results cfg (length (T cfg))) d0
    = (Ok (table tr k), d)
    /\ idle d
    /\ ((0 < k)%nat ->
        load (filename_of tr) d
        = Some {| a_trend := tr; a_results := table tr k;
                  a_percentiles := percentiles; a_T := T cfg |}).
Proof.
  induction k as [|k IH]; intros d0 Hv Hidle Hk.
  - exists d0. split; [|split; [assumption|lia]].
    cbn [firstn]. unfold rounds. cbn [for_each]. unfold ret.
    now rewrite (new_results_table tr).
  - destruct (IH d0 Hv Hidle ltac:(lia)) as [d [Hrun [Hidle' _]]].
    destruct (nth_error (T cfg) k) as [t|] eqn:Ht;
      [|apply nth_error_None in Ht; lia].
    assert (Hit : nth_error (enumerate_T cfg) k = Some (k, t))
      by (unfold enumerate_T; now rewrite (nth_error_combine_seq _ 0 k t Ht)).
    destruct (tasks_succeed tr t Hv (nth_error_In _ _ Ht)) as [out Hout].
    destruct (round_run tr k t (table tr k) out d Hidle'
                (proj2 (proj2 Hv)) Hout
                (table_length tr k) (table_planes tr k k ltac:(lia)))
      as [d' [Hround [Hidle'' Hload]]].
    rewrite (table_step tr k t out Ht Hout) in Hround, Hload.
    exists d'. split; [|split; [assumption|intros _; exact Hload]].
    rewrite (firstn_succ _ _ _ Hit). unfold rounds in *.
    rewrite for_each_app. unfold bind at 1. rewrite Hrun.
    cbn [for_each]. unfold bind at 1. rewrite Hround. reflexivity.
Qed.

Lemma outputs_length tr i :
  valid_config cfg -> (i < length (T cfg))%nat ->
  length (outs tr i) = EX_NUM cfg.
Proof.
  intros Hv Hi. unfold outputs.
  destruct (nth_error (T cfg) i) as [t|] eqn:Ht;
    [|apply nth_error_None in Ht; lia].
  destruct (tasks_succeed tr t Hv (nth_error_In _ _ Ht)) as [out Hout].
  rewrite Hout. now apply (tasks_length tr t).
Qed.

Lemma cell_table tr k p i r :
  valid_config cfg ->
  (p < levels)%nat -> (i < length (T cfg))%nat -> (r < EX_NUM cfg)%nat ->
  cell (table tr k) p i r
  = if Nat.ltb i k
    then nth p (percentile (nth r (outs tr i) []) percentiles) fzero
    else sentinel.
Proof.
  intros Hv Hp Hi Hr. unfold cell, table_after.
  rewrite (map_nth_lt _ _ 0%nat) by (rewrite length_seq; assumption).
  rewrite seq_nth by assumption.
  rewrite (map_nth_lt _ _ 0%nat) by (rewrite length_seq; assumption).
  rewrite seq_nth by assumption. cbn [Nat.add].
  destruct (Nat.ltb i k).
  - pose proof (outputs_length tr i Hv Hi) as Hl.
    unfold quantiles. rewrite map_map.
    now rewrite (map_nth_lt _ _ []) by lia.
  - rewrite (nth_indep _ fzero sentinel) by (rewrite repeat_length; assumption).
    apply nth_repeat.
Qed.

(** The loop of one trend runs to its end: the table then holds the
    percentiles of every length, and so does the file. *)
Lemma driver_trend_run tr (d0 : Driver F) :
  valid_config cfg -> idle d0 -> (0 < length (T cfg))%nat ->
  exists d,
    driver_trend normal_stream pinv percentile int_stream engine cfg tr d0
    = (Ok (table tr (length (T cfg))), d)
    /\ idle d
    /\ load (filename_of tr) d
       = Some {| a_trend := tr; a_results := table tr (length (T cfg));
                 a_percentiles := percentiles; a_T := T cfg |}.
Proof.
  intros Hv Hidle Hm.
  destruct (rounds_run tr (length (T cfg)) d0 Hv Hidle (Nat.le_refl _))
    as [d [Hrun [Hidle' Hload]]].
  exists d. split; [|split; [assumption|now apply Hload]].
  unfold driver_trend. rewrite <- Hrun. f_equal.
  unfold enumerate_T. symmetry. apply firstn_all2.
  rewrite length_combine, length_seq. lia.
Qed.

End CheckpointFacts.

(** ** The invariant of the table *)

Lemma mapM_Forall {A B} (P : B -> Prop) (f : A -> result B) (xs : list A) :
  (forall x y, In x xs -> f x = Ok y -> P y) ->
  forall ys, mapM f xs = Ok ys -> Forall P ys.
Proof.
  induction xs as [|x xs IH]; intros Hall ys; simpl.
  - intros [= <-]. constructor.
  - destruct (f x) as [y|err] eqn:Hy; [|discriminate].
    destruct (mapM f xs) as [ys'|err] eqn:Hys; [|discriminate].
    intros [= <-]. constructor.
    + apply (Hall x y); [now left|assumption].
    + apply IH; [|reflexivity]. intros x' y' Hin. apply Hall. now right.
Qed.

Section TableFacts.
Context {F : Type} `{Float64 F}.

Variable normal_stream : Z -> Z -> F.
Variable pinv : list (list F) -> list (list F).
Variable percentile : list F -> list F -> list F.
Variable int_stream : Z -> nat -> Z.
Variable engine : Engine.
Variable cfg : Config.

(** [numpy.percentile] returns one value per level on data that are not
    empty. *)
Hypothesis percentile_levels :
  forall x q, x <> [] -> length (percentile x q) = length q.

Local Abbreviation run := (run_task normal_stream pinv engine cfg).
Local Abbreviation sds := (seeds int_stream cfg).
Local Abbreviation levels := (length (@percentiles F _)).
Local Abbreviation table :=
  (table_after normal_stream pinv percentile int_stream engine cfg).
Local Abbreviation outs := (outputs normal_stream pinv int_stream engine cfg).

(** [percentile] with a value for no data, where it is never called. *)
Local Abbreviation total :=
  (fun (x q : list F) =>
     match x with
     | [] => map (fun _ => @fzero F _) q
     | _ :: _ => percentile x q
     end).

Lemma total_length (x q : list F) : length (total x q) = length q.
Proof.
  destruct x as [|a x]; [apply length_map|].
  apply percentile_levels. discriminate.
Qed.

(** Every task of a round returns [EX_SIZE] statistics. *)
Lemma tasks_rows tr t out :
  valid_config cfg -> In t (T cfg) ->
  mapM run (map_async_args cfg t tr sds) = Ok out ->
  Forall (fun x => length x = Z.to_nat (EX_SIZE cfg)) out.
Proof.
  intros [Hall [Hsize _]] Hin. apply mapM_Forall.
  intros [[[n trend] b] s] y Htask Hy. unfold map_async_args in Htask.
  apply zip4_In in Htask. destruct Htask as [Hn [Htr [Hb _]]].
  apply repeat_spec in Hn, Htr, Hb. subst n trend b.
  rewrite Forall_forall in Hall. destruct (Hall t Hin) as [Hpos Hbud].
  destruct (block_size_positive (MAX_MEMORY_SIZE cfg) t Hpos Hbud)
    as [bs [Hbs Hbs0]].
  destruct (wrapper_length normal_stream pinv (MAX_MEMORY_SIZE cfg) t tr
              (EX_SIZE cfg) s engine bs Hpos Hsize Hbs Hbs0) as [v [Hv Hlen]].
  unfold run_task in Hy. rewrite Hv in Hy. now injection Hy as <-.
Qed.

Lemma rows_not_empty (out : list (list F)) :
  0 < EX_SIZE cfg ->
  Forall (fun x => length x = Z.to_nat (EX_SIZE cfg)) out ->
  Forall (fun x => x <> []) out.
Proof.
  intros Hsize. apply Forall_impl. intros x Hx ->. simpl in Hx. lia.
Qed.

Lemma quantiles_total (out : list (list F)) :
  Forall (fun x => x <> []) out ->
  quantiles total out = quantiles percentile out.
Proof.
  intros Hout. unfold quantiles. apply map_ext_in. intros x Hx.
  rewrite Forall_forall in Hout. specialize (Hout x Hx).
  destruct x; [congruence|reflexivity].
Qed.

Lemma round_total tr i t results (d : Driver F) :
  (forall out, mapM run (map_async_args cfg t tr sds) = Ok out ->
     Forall (fun x => x <> []) out) ->
  round normal_stream pinv total int_stream engine cfg tr (i, t) results d
  = round normal_stream pinv percentile int_stream engine cfg tr (i, t) results d.
Proof.
  intros Hrows. unfold round, bind.
  destruct (map_async lview (map_async_args cfg t tr sds) d) as [[ids|err] d1];
    [|reflexivity].
  unfold get.
  destruct (mapM run (map_async_args cfg t tr sds)) as [out|err];
    [|reflexivity].
  cbv beta iota zeta.
  now rewrite (quantiles_total out (Hrows out eq_refl)).
Qed.

Lemma rounds_total tr : forall its results (d : Driver F),
  valid_config cfg -> 0 < EX_SIZE cfg ->
  (forall i t, In (i, t) its -> In t (T cfg)) ->
  rounds normal_stream pinv total int_stream engine cfg tr its results d
  = rounds normal_stream pinv percentile int_stream engine cfg tr its results d.
Proof.
  unfold rounds. induction its as [|[i t] its IH]; intros results d Hv Hsize Hin;
    [reflexivity|].
  cbn [for_each]. unfold bind.
  rewrite round_total.
  - destruct (round normal_stream pinv percentile int_stream engine cfg tr
                (i, t) results d) as [[r|err] d1]; [|reflexivity].
    apply IH; try assumption. intros i' t' Hin'. apply (Hin i'). now right.
  - intros out Hout. apply rows_not_empty; [assumption|].
    apply (tasks_rows tr t out Hv); [|assumption].
    apply (Hin i). now left.
Qed.

Lemma outputs_rows tr i :
  valid_config cfg ->
  Forall (fun x => length x = Z.to_nat (EX_SIZE cfg)) (outs tr i).
Proof.
  intros Hv. unfold outputs.
  destruct (nth_error (T cfg) i) as [t|] eqn:Ht; [|constructor].
  destruct (mapM run (map_async_args cfg t tr sds)) as [out|err] eqn:Hout;
    [|constructor].
  apply (tasks_rows tr t out Hv); [|assumption].
  now apply (nth_error_In _ i).
Qed.

Lemma table_total tr k :
  valid_config cfg -> 0 < EX_SIZE cfg ->
  table_after normal_stream pinv total int_stream engine cfg tr k = table tr k.
Proof.
  intros Hv Hsize. unfold table_after.
  apply map_ext. intros p. apply map_ext. intros i.
  destruct (Nat.ltb i k); [|reflexivity].
  rewrite quantiles_total; [reflexivity|].
  apply rows_not_empty; [assumption|]. now apply outputs_rows.
Qed.

Lemma enumerate_T_In i t k :
  In (i, t) (firstn k (enumerate_T cfg)) -> In t (T cfg).
Proof.
  intros Hin. apply (in_combine_r (seq 0 (length (T cfg))) (T cfg) i).
  change (In (i, t) (enumerate_T cfg)).
  rewrite <- (firstn_skipn k (enumerate_T cfg)). apply in_or_app. now left.
Qed.

(** C6: for every trend, with lengths the budget admits, at least one
    replication of at least one draw and an idle pool: the table starts
    with the sentinel [0.0 * nan] in every cell ([k = 0]); the rounds for
    the first [k] lengths complete; the cell [(p, i, r)] of a slice [i < k]
    then holds the percentile of level [p] of the [EX_SIZE] statistics of
    replication [r] at the length [T[i]], whatever that value is, and every
    cell of the slices [i >= k] still holds the sentinel, which is a NaN;
    and once a round is done the file of the trend holds the trend, that
    table, the levels and [T]. *)
Theorem driver_checkpoints tr k (d0 : Driver F) :
  valid_config cfg -> 0 < EX_SIZE cfg -> idle d0 -> (k <= length (T cfg))%nat ->
  exists d,
    rounds normal_stream pinv percentile int_stream engine cfg tr
      (firstn k (enumerate_T cfg)) (new_results cfg (length (T cfg))) d0
    = (Ok (table tr k), d)
    /\ table tr 0%nat = new_results cfg (length (T cfg))
    /\ ((0 < k)%nat ->
        load (filename_of tr) d
        = Some {| a_trend := tr; a_results := table tr k;
                  a_percentiles := percentiles; a_T := T cfg |})
    /\ forall p i r,
         (p < levels)%nat -> (i < length (T cfg))%nat -> (r < EX_NUM cfg)%nat ->
         ((k <= i)%nat ->
          cell (table tr k) p i r = sentinel
          /\ fisnan (cell (table tr k) p i r) = true)
         /\ ((i < k)%nat ->
             exists x,
               nth_error (outs tr i) r = Some x
               /\ length x = Z.to_nat (EX_SIZE cfg)
               /\ cell (table tr k) p i r = nth p (percentile x percentiles) fzero).
Proof.
  intros Hv Hsize Hidle Hk.
  destruct (rounds_run normal_stream pinv total int_stream engine cfg
              total_length tr k d0 Hv Hidle Hk) as [d [Hrun [_ Hload]]].
  rewrite rounds_total in Hrun; try assumption;
    [|intros i t Hin; now apply (enumerate_T_In i t k)].
  rewrite table_total in Hrun, Hload by assumption.
  exists d. split; [exact Hrun|].
  split; [rewrite <- (table_total tr 0) by assumption;
          symmetry; apply new_results_table|].
  split; [exact Hload|].
  intros p i r Hp Hi Hr.
  pose proof (cell_table normal_stream pinv total int_stream engine cfg
                tr k p i r Hv Hp Hi Hr) as Hc.
  rewrite table_total in Hc by assumption.
  split.
  - intros Hle. assert (E : Nat.ltb i k = false) by (apply Nat.ltb_ge; lia).
    rewrite E in Hc. rewrite Hc. split; [reflexivity|apply fmul_zero_nan].
  - intros Hlt. assert (E : Nat.ltb i k = true) by (apply Nat.ltb_lt; lia).
    rewrite E in Hc.
    pose proof (outputs_length normal_stream pinv int_stream engine cfg
                  tr i Hv Hi) as Hlen.
    destruct (nth_error (outs tr i) r) as [x|] eqn:Hx;
      [|apply nth_error_None in Hx; lia].
    pose proof (outputs_rows tr i Hv) as Hrows.
    rewrite Forall_forall in Hrows.
    pose proof (Hrows x (nth_error_In _ _ Hx)) as Hxl.
    exists x. split; [reflexivity|]. split; [exact Hxl|].
    rewrite Hc. rewrite (nth_error_nth _ _ [] Hx).
    destruct x as [|a x]; [simpl in Hxl; lia|reflexivity].
Qed.

End TableFacts.

Lemma driver_checkpoints_witness :
  exists d,
    rounds demo_stream pinv_column percentile_double demo_ints demo_engine
      demo_config "nc" (firstn 1 (enumerate_T demo_config))
      (new_results demo_config (length (T demo_config))) demo_driver
    = (Ok (table_after demo_stream pinv_column percentile_double demo_ints
             demo_engine demo_config "nc" 1), d).
Proof.
  destruct (driver_checkpoints demo_stream pinv_column percentile_double
              demo_ints demo_engine demo_config (fun x q _ => length_map _ q)
              "nc" 1%nat demo_driver)
    as [d [Hrun _]].
  - split; [repeat constructor; vm_compute; congruence|].
    split; [vm_compute; congruence|vm_compute; lia].
  - reflexivity.
  - split; [vm_compute; lia|reflexivity].
  - vm_compute; lia.
  - exists d. exact Hrun.
Defined.

(** The claim as it is worded fails on a completed slice of NaN.  With the
    trend ['c'] a series of length 2 leaves one observation, whose residual
    on the constant is zero: every statistic is [0 / 0] and so is every
    percentile.  After the two rounds of [demo_config] the slice of the
    length 2 is complete and each of its cells is a NaN. *)
Lemma driver_checkpoints_cex :
  let results :=
    table_after demo_stream pinv_column percentile_double demo_ints demo_engine
      demo_config "c" 2 in
  fst (rounds demo_stream pinv_column percentile_double demo_ints demo_engine
         demo_config "c" (enumerate_T demo_config)
         (new_results demo_config 2) demo_driver) = Ok results
  /\ map (fun x => map PrimFloat.is_nan x)
       (outputs demo_stream pinv_column demo_ints demo_engine demo_config "c" 1)
     = [[true; true; true]; [true; true; true]]
  /\ forallb (fun plane => forallb PrimFloat.is_nan (nth 1 plane [])) results
     = true
  /\ ~ (forall p r, (p < 199)%nat -> (r < 2)%nat ->
          PrimFloat.is_nan (cell results p 1 r) = false).
Proof.
  cbv zeta. split; [vm_compute; reflexivity|].
  split; [vm_compute; reflexivity|]. split; [vm_compute; reflexivity|].
  intros Hall. specialize (Hall 0%nat 0%nat ltac:(lia) ltac:(lia)).
  vm_compute in Hall. discriminate.
Qed.

(** The constants of the source satisfy [valid_config]. *)
Lemma source_config_valid : valid_config source_config.
Proof.
  split; [|split].
  - unfold source_config. cbn [T MAX_MEMORY_SIZE rev app].
    repeat (constructor; [split; [reflexivity|discriminate]|]). constructor.
  - discriminate.
  - apply Nat.ltb_lt. reflexivity.
Qed.

(** ** The simulation on concrete inputs *)

Lemma float_neq (x y : float) : Prim2SF x <> Prim2SF y -> x <> y.
Proof. intros Hne Heq. apply Hne. now rewrite Heq. Qed.

Lemma adf_simulation_statistic_witness :
  exists v,
    fst (adf_simulation demo_stream pinv_column 3 "c" 2 (Some 0%nat) demo_engine1)
    = Ok v /\ length v = 2%nat.
Proof.
  destruct (adf_simulation_statistic demo_stream pinv_column 3 "c" 2
              (Some 0%nat) demo_engine1 ltac:(lia) ltac:(lia))
    as [z [Hz [Hres _]]].
  eexists. split; [exact Hres|]. reflexivity.
Defined.

Lemma adf_simulation_draws_witness :
  rs_drawn (get_gen (Obj 0)
              (snd (adf_simulation demo_stream pinv_column 3 "c" 2 (Some 0%nat)
                      demo_engine1)))
  = 0 + (3 + 50) * 2.
Proof.
  destruct (adf_simulation_draws demo_stream pinv_column 3 "c" 2
              (Some 0%nat) demo_engine1 ltac:(lia) ltac:(lia)
              ltac:(simpl; lia))
    as [z [Hz [_ [Hdrawn _]]]].
  exact Hdrawn.
Defined.

(** C5 as the specification states it fails: with [n = 2] and [b = 1] the
    call consumes 52 deviates, the array drawn having [n + 50 = 52] rows
    and not [n - 1 + 50 = 51]. *)
Lemma adf_simulation_draws_cex :
  ~ (forall n b : Z,
       0 < n -> 0 <= b ->
       rs_drawn (get_gen (Obj 0)
                   (snd (adf_simulation demo_stream pinv_column n "nc" b
                           (Some 0%nat) demo_engine1)))
       = rs_drawn (get_gen (Obj 0) demo_engine1) + (n - 1 + 50) * b
       /\ length (draws demo_stream n b (Some 0%nat) demo_engine1)
          = Z.to_nat (n - 1 + 50)
       /\ length (adf_lhs pinv_column (Z.to_nat b) None
                    (draws demo_stream n b (Some 0%nat) demo_engine1))
          = Z.to_nat (n - 1)
       /\ length (adf_rhs pinv_column (Z.to_nat b) None
                    (draws demo_stream n b (Some 0%nat) demo_engine1))
          = Z.to_nat (n - 1)).
Proof.
  intros Hall.
  destruct (Hall 2 1 ltac:(lia) ltac:(lia)) as [Hdrawn _].
  vm_compute in Hdrawn. discriminate.
Qed.

Lemma adf_simulation_other_trend_witness :
  adf_simulation demo_stream pinv_column 3 "linear" 2 None demo_engine
  = adf_simulation demo_stream pinv_column 3 "nc" 2 None demo_engine.
Proof.
  apply (adf_simulation_other_trend demo_stream pinv_column 3 "linear" 2 None
           demo_engine);
    try discriminate; lia.
Defined.

Lemma wrapper_budget_witness :
  fst (wrapper demo_stream pinv_column 100 3 "c" 2 0 demo_engine)
  = fst (wrapper demo_stream pinv_column 50 3 "c" 2 0 demo_engine1).
Proof.
  destruct (wrapper_budget demo_stream pinv_column 100 50 3 "c" 2 0
              demo_engine demo_engine1 4369066 2184533
              ltac:(lia) ltac:(lia) eq_refl eq_refl ltac:(lia) ltac:(lia)
              ltac:(right; lia))
    as [z [v [_ [H1 [H2 _]]]]].
  now rewrite H1, H2.
Defined.

(** C1 as the specification states it fails: for [n = 2], no trend, 65537
    draws and the seed 0, the budget 1 gives blocks of 65536 columns and the
    budget 2 a single block of 65537 columns; the first statistic is
    computed from the deviates [0, 65536, 2 * 65536, ...] in the first case
    and [0, 65537, 2 * 65537, ...] in the second, and differs. *)
Lemma wrapper_budget_cex :
  fst (wrapper demo_stream pinv_column 1 2 "nc" 65537 0 demo_engine)
  <> fst (wrapper demo_stream pinv_column 2 2 "nc" 65537 0 demo_engine).
Proof.
  intros Heq.
  destruct (wrapper_nth demo_stream pinv_column 1 2 "nc" 65537 0
              demo_engine 65536 None 0
              ltac:(lia) ltac:(lia) eq_refl ltac:(lia) eq_refl ltac:(lia))
    as [v1 [H1 N1]].
  destruct (wrapper_nth demo_stream pinv_column 2 2 "nc" 65537 0
              demo_engine 131072 None 0
              ltac:(lia) ltac:(lia) eq_refl ltac:(lia) eq_refl ltac:(lia))
    as [v2 [H2 N2]].
  rewrite H1, H2 in Heq. injection Heq as ->.
  rewrite N1 in N2. revert N2. apply float_neq.
  vm_compute. discriminate.
Qed.

Lemma wrapper_single_generator_witness :
  adf_calls (snd (wrapper demo_stream pinv_column 100 3 "c" 2 7 demo_engine1))
  = [Some 1%nat]
  /\ heap (snd (wrapper demo_stream pinv_column 100 3 "c" 2 7 demo_engine1))
     = [seeded 0; {| rs_key := 7; rs_drawn := 106 |}].
Proof.
  destruct (wrapper_single_generator demo_stream pinv_column 100 3 "c" 2 7
              demo_engine1)
    as [_ [_ Hvalid]].
  destruct (Hvalid 4369066 _ ltac:(lia) ltac:(lia) eq_refl ltac:(lia) eq_refl)
    as [_ [Hheap Hcalls]].
  split; [exact Hcalls|exact Hheap].
Defined.

Lemma wrapper_without_validation_witness :
  fst (wrapper demo_stream pinv_column 100 3 "c" (-1) 0 demo_engine)
  = Raise ValueError
  /\ fst (wrapper demo_stream pinv_column 100 0 "c" 2 0 demo_engine)
     = Raise ZeroDivisionError
  /\ fst (wrapper demo_stream pinv_column 100 (-3) "c" 2 0 demo_engine)
     = Ok (zeros 2)
  /\ wrapper demo_stream pinv_column 100 3 "linear" 2 0 demo_engine
     = wrapper demo_stream pinv_column 100 3 "nc" 2 0 demo_engine.
Proof.
  split; [|split; [|split]].
  - apply (wrapper_without_validation demo_stream pinv_column 100 3 "c" (-1) 0
             demo_engine). lia.
  - apply (wrapper_without_validation demo_stream pinv_column 100 0 "c" 2 0
             demo_engine); lia.
  - apply (wrapper_without_validation demo_stream pinv_column 100 (-3) "c" 2 0
             demo_engine); lia.
  - apply (wrapper_without_validation demo_stream pinv_column 100 3 "linear" 2 0
             demo_engine); discriminate.
Defined.

(** C3 as the specification states it fails: a negative length with one draw
    returns the vector [[0.0]] and no error. *)
Lemma wrapper_validation_cex :
  ~ (forall (n : Z) (trend : string) (b : Z),
       n <= 0 \/ b < 0 \/ ~ In trend ["nc"; "c"; "ct"; "ctt"]%string ->
       exists err,
         fst (wrapper demo_stream pinv_column 100 n trend b 0 demo_engine)
         = Raise err).
Proof.
  intros Hall.
  destruct (Hall (-1) "nc"%string 1 ltac:(left; lia)) as [err Herr].
  vm_compute in Herr. discriminate.
Qed.

(** ** More on the statistic generator *)

Section GeneratorFacts.
Context {F : Type} `{Arith F}.

Variable normal_stream : Z -> Z -> F.
Variable pinv : list (list F) -> list (list F).

Lemma regressors_raise trend nobs :
  detrended trend = true -> nobs < 0 ->
  @regressors F _ trend nobs = Raise ValueError.
Proof.
  intros Hd Hn. unfold detrended in Hd. unfold regressors, np_ones_col, np_ones.
  assert (E : (nobs <? 0) = true) by (apply Z.ltb_lt; lia). rewrite E.
  destruct (String.eqb trend "c"); [reflexivity|].
  destruct (String.eqb trend "ct"); [reflexivity|].
  destruct (String.eqb trend "ctt"); [reflexivity|discriminate].
Qed.

Lemma regressors_none trend nobs :
  detrended trend = false -> @regressors F _ trend nobs = Ok None.
Proof.
  intros Hd. unfold detrended in Hd. unfold regressors.
  destruct (String.eqb trend "c"); [discriminate|].
  destruct (String.eqb trend "ct"); [discriminate|].
  destruct (String.eqb trend "ctt"); [discriminate|reflexivity].
Qed.

Lemma adf_simulation_length n trend b rng e z :
  0 <= n + 50 -> 0 <= b -> regressors trend (n - 1) = Ok z ->
  exists v,
    fst (adf_simulation normal_stream pinv n trend b rng e) = Ok v
    /\ length v = Z.to_nat b.
Proof.
  intros Hn Hb Hz.
  rewrite (adf_simulation_fst normal_stream pinv n trend b rng e z) by assumption.
  eexists. split; [reflexivity|]. cbv zeta.
  apply adf_stat_length.
  - apply shaped_adf_lhs, shaped_draws.
  - apply shaped_adf_rhs, shaped_draws.
Qed.

Lemma adf_simulation_raise_regressors n trend b rng e err :
  regressors trend (n - 1) = Raise err ->
  fst (adf_simulation normal_stream pinv n trend b rng e) = Raise err.
Proof.
  intros Hz. destruct rng as [r|];
    unfold adf_simulation, bind, log_call, ret, lift, rs_seed; simpl;
    now rewrite Hz.
Qed.

Lemma adf_simulation_raise_shape n trend b rng e z :
  regressors trend (n - 1) = Ok z -> n + 50 < 0 \/ b < 0 ->
  fst (adf_simulation normal_stream pinv n trend b rng e) = Raise ValueError.
Proof.
  intros Hz Hneg.
  assert (E : (n + 50 <? 0) || (b <? 0) = true).
  { apply orb_true_iff. destruct Hneg; [left|right]; apply Z.ltb_lt; lia. }
  destruct rng as [r|];
    unfold adf_simulation, bind, log_call, ret, lift, rs_seed, standard_normal;
    simpl; now rewrite Hz, E.
Qed.

(** X1: [adf_simulation] raises exactly when [ones] or [standard_normal] is
    given a negative dimension, and then a [ValueError]: when [b < 0], when
    [n + 50 < 0], or when the trend is ['c'], ['ct'] or ['ctt'] and [n < 1].
    On all other arguments, among them [n <= 0] without regressors, it
    returns [b] values. *)
Theorem adf_simulation_accepts n trend b rng e :
  (adf_accepts n trend b = true ->
   exists v,
     fst (adf_simulation normal_stream pinv n trend b rng e) = Ok v
     /\ length v = Z.to_nat b)
  /\ (adf_accepts n trend b = false ->
      fst (adf_simulation normal_stream pinv n trend b rng e) = Raise ValueError).
Proof.
  unfold adf_accepts. split.
  - intros Hacc. apply andb_true_iff in Hacc. destruct Hacc as [Hacc Hb].
    apply andb_true_iff in Hacc. destruct Hacc as [Htr Hn].
    apply Z.leb_le in Hb, Hn.
    destruct (detrended trend) eqn:Hd.
    + simpl in Htr. apply Z.leb_le in Htr.
      destruct (regressors_valid (F := F) trend (n - 1)) as [z Hz]; [lia|].
      now apply (adf_simulation_length n trend b rng e z).
    + apply (adf_simulation_length n trend b rng e None); try assumption.
      now apply regressors_none.
  - intros Hacc.
    destruct (detrended trend) eqn:Hd.
    + destruct (Z.leb_spec 1 n) as [Hn1|Hn1].
      * destruct (regressors_valid (F := F) trend (n - 1)) as [z Hz]; [lia|].
        apply (adf_simulation_raise_shape n trend b rng e z Hz).
        simpl in Hacc. apply andb_false_iff in Hacc.
        destruct Hacc as [Hc|Hc]; apply Z.leb_gt in Hc; lia.
      * apply adf_simulation_raise_regressors.
        apply regressors_raise; [assumption|lia].
    + apply (adf_simulation_raise_shape n trend b rng e None).
      * now apply regressors_none.
      * simpl in Hacc. apply andb_false_iff in Hacc.
        destruct Hacc as [Hc|Hc]; apply Z.leb_gt in Hc; lia.
Qed.

(** X2: on valid arguments the statistic at position [j] is computed from
    column [j] of the normal draws alone: the running sums of that column
    without their first 50 values, residuals on the regressors when there
    are any, and the statistic of the two series.  The [b] statistics are [b]
    separate simulations. *)
Theorem adf_simulation_columns n trend b rng e :
  0 < n -> 0 <= b ->
  exists z,
    regressors trend (n - 1) = Ok z
    /\ fst (adf_simulation normal_stream pinv n trend b rng e)
       = Ok (map (fun j =>
                    column_statistic pinv z
                      (normal_column normal_stream (rs_key (source_of rng e))
                         (rs_drawn (source_of rng e)) (Z.to_nat (n + 50))
                         (Z.to_nat b) j))
                 (seq 0 (Z.to_nat b))).
Proof.
  intros Hn Hb.
  destruct (regressors_valid (F := F) trend (n - 1)) as [z Hz]; [lia|].
  exists z. split; [exact Hz|].
  rewrite (adf_simulation_fst normal_stream pinv n trend b rng e z)
    by (assumption || lia).
  cbv zeta. f_equal.
  change (adf_stat (Z.to_nat b)
            (adf_lhs pinv (Z.to_nat b) z (draws normal_stream n b rng e))
            (adf_rhs pinv (Z.to_nat b) z (draws normal_stream n b rng e)))
    with (block normal_stream pinv z (rs_key (source_of rng e))
            (rs_drawn (source_of rng e)) n b).
  apply (list_eq_nth fzero).
  - now rewrite block_length, length_map, length_seq.
  - rewrite block_length. intros j Hj.
    rewrite block_nth by assumption.
    now rewrite map_seq_nth.
Qed.

(** X3: without [rng] the call reseeds numpy's global generator with 0
    before it draws: the result does not depend on the engine, so two such
    calls in a row return the same values; no [RandomState] object is
    touched, and the global generator is left by an accepted call after
    [(n + 50) * b] deviates of the stream of the seed 0. *)
Theorem adf_simulation_without_rng n trend b e1 e2 :
  fst (adf_simulation normal_stream pinv n trend b None e1)
  = fst (adf_simulation normal_stream pinv n trend b None e2)
  /\ fst (adf_simulation normal_stream pinv n trend b None
            (snd (adf_simulation normal_stream pinv n trend b None e1)))
     = fst (adf_simulation normal_stream pinv n trend b None e1)
  /\ heap (snd (adf_simulation normal_stream pinv n trend b None e1)) = heap e1
  /\ (adf_accepts n trend b = true ->
      np_random (snd (adf_simulation normal_stream pinv n trend b None e1))
      = {| rs_key := 0; rs_drawn := (n + 50) * b |}).
Proof.
  assert (Hind : forall e e',
             fst (adf_simulation normal_stream pinv n trend b None e)
             = fst (adf_simulation normal_stream pinv n trend b None e')).
  { intros e e'.
    unfold adf_simulation, bind, log_call, ret, lift, rs_seed, standard_normal.
    simpl. destruct (regressors trend (n - 1)); [|reflexivity].
    destruct ((n + 50 <? 0) || (b <? 0)); reflexivity. }
  split; [apply Hind|]. split; [apply Hind|]. split.
  - unfold adf_simulation, bind, log_call, ret, lift, rs_seed, standard_normal.
    simpl. destruct (regressors trend (n - 1)); [|reflexivity].
    destruct ((n + 50 <? 0) || (b <? 0)); reflexivity.
  - unfold adf_accepts. intros Hacc.
    apply andb_true_iff in Hacc. destruct Hacc as [Hacc Hb].
    apply andb_true_iff in Hacc. destruct Hacc as [Htr Hn].
    apply Z.leb_le in Hb, Hn.
    assert (Hz : exists z, @regressors F _ trend (n - 1) = Ok z).
    { destruct (detrended trend) eqn:Hd.
      - simpl in Htr. apply Z.leb_le in Htr. apply regressors_valid. lia.
      - exists None. now apply regressors_none. }
    destruct Hz as [z Hz].
    assert (E1 : (n + 50 <? 0) = false) by (apply Z.ltb_ge; lia).
    assert (E2 : (b <? 0) = false) by (apply Z.ltb_ge; lia).
    unfold adf_simulation, bind, log_call, ret, lift, rs_seed, standard_normal.
    simpl. rewrite Hz, E1, E2. reflexivity.
Qed.

(** *** A sample of length 1 *)

Lemma zip_with_repeat {A B C} (f : A -> B -> C) (x : A) (y : B) k :
  zip_with f (repeat x k) (repeat y k) = repeat (f x y) k.
Proof. induction k as [|k IH]; simpl; [reflexivity|]. now rewrite IH. Qed.

Lemma length_zero_nil {A} (l : list A) : length l = 0%nat -> l = [].
Proof. destruct l; [reflexivity|discriminate]. Qed.

Lemma detrend_nil cols z : detrend pinv cols z [] = [].
Proof. destruct z; reflexivity. Qed.

(** X4: the length [n = 1] is accepted and leaves no observation: whatever
    the trend, each of the [b] values returned is [0 * (0 / 0 - 1)], the
    sums over no row being zeros. *)
Theorem adf_simulation_one_observation trend b rng e :
  0 <= b ->
  fst (adf_simulation normal_stream pinv 1 trend b rng e)
  = Ok (repeat (fmul (of_int 0) (fsub (fdiv fzero fzero) fone)) (Z.to_nat b)).
Proof.
  intros Hb.
  destruct (regressors_valid (F := F) trend (1 - 1)) as [z Hz]; [lia|].
  rewrite (adf_simulation_fst normal_stream pinv 1 trend b rng e z)
    by (assumption || lia).
  cbv zeta. f_equal.
  set (y := draws normal_stream 1 b rng e).
  assert (Hl : length (paths y) = 1%nat).
  { rewrite length_paths. unfold y. rewrite length_draws. reflexivity. }
  assert (Hlead : lead (paths y) = []).
  { apply length_zero_nil. unfold lead. rewrite length_tl, Hl. reflexivity. }
  assert (Hlag : lag (paths y) = []).
  { apply length_zero_nil. unfold lag. rewrite length_removelast, Hl. reflexivity. }
  unfold adf_lhs, adf_rhs. rewrite Hlead, Hlag, detrend_nil.
  unfold adf_stat, sum_axis0, vdiv, zeros. simpl fold_left. simpl length.
  rewrite zip_with_repeat, map_repeat. reflexivity.
Qed.

(** *** The regressors *)

Lemma nth_int_arange a b j :
  (j < Z.to_nat (b - a))%nat -> nth j (int_arange a b) 0 = a + Z.of_nat j.
Proof.
  intros Hj. unfold int_arange.
  rewrite (map_nth_lt _ _ 0%nat) by (rewrite length_seq; assumption).
  now rewrite seq_nth.
Qed.

Lemma length_int_arange a b : length (int_arange a b) = Z.to_nat (b - a).
Proof. unfold int_arange. now rewrite length_map, length_seq. Qed.

(** X5: for [0 <= nobs] the regressors are the [nobs] rows [(1)] for ['c'],
    [(1, t)] for ['ct'] and [(1, t, t * t)] for ['ctt'], with [t] running
    from 1 to [nobs]; there is none for any other trend, and a negative
    [nobs] makes the three trends raise. *)
Theorem regressors_rows_of trend nobs :
  (0 <= nobs ->
   @regressors F _ "c" nobs
   = Ok (Some (map (fun _ => [fone]) (seq 0 (Z.to_nat nobs))))
   /\ @regressors F _ "ct" nobs
      = Ok (Some (map (fun i => [fone; of_int (1 + Z.of_nat i)])
                    (seq 0 (Z.to_nat nobs))))
   /\ @regressors F _ "ctt" nobs
      = Ok (Some (map (fun i => [fone; of_int (1 + Z.of_nat i);
                                 fmul (of_int (1 + Z.of_nat i))
                                      (of_int (1 + Z.of_nat i))])
                    (seq 0 (Z.to_nat nobs)))))
  /\ (detrended trend = false -> @regressors F _ trend nobs = Ok None)
  /\ (detrended trend = true -> nobs < 0 ->
      @regressors F _ trend nobs = Raise ValueError).
Proof.
  split; [|split; [apply regressors_none|apply regressors_raise]].
  intros Hn.
  assert (E : (nobs <? 0) = false) by (apply Z.ltb_ge; lia).
  assert (Ha : Z.to_nat (nobs + 1 - 1) = Z.to_nat nobs) by (f_equal; lia).
  assert (Hone : forall j, (j < Z.to_nat nobs)%nat ->
                   nth j (ones (Z.to_nat nobs)) fzero = (fone : F)).
  { intros j Hj. unfold ones. now apply nth_repeat_lt. }
  assert (Htau : forall (g : Z -> F) j, (j < Z.to_nat nobs)%nat ->
                   nth j (map g (int_arange 1 (nobs + 1))) fzero
                   = g (1 + Z.of_nat j)).
  { intros g j Hj.
    rewrite (map_nth_lt _ _ 0) by (rewrite length_int_arange; lia).
    now rewrite nth_int_arange by lia. }
  split; [|split].
  - unfold regressors, np_ones_col. simpl String.eqb. rewrite E.
    do 2 f_equal. apply (repeat_as_map _ _ 0%nat).
  - unfold regressors, np_ones. simpl String.eqb. rewrite E.
    do 2 f_equal. unfold transpose. apply map_ext_in. intros j Hj.
    apply in_seq in Hj. unfold col, arange. cbn [map].
    rewrite Hone by lia. now rewrite Htau by lia.
  - unfold regressors, np_ones. simpl String.eqb. rewrite E.
    do 2 f_equal. unfold transpose. apply map_ext_in. intros j Hj.
    apply in_seq in Hj. unfold col. cbn [map].
    rewrite Hone by lia. rewrite (Htau of_int) by lia.
    now rewrite (Htau (fun t => fsquare (of_int t))) by lia.
Qed.

(** *** The random walks *)

Lemma removelast_skipn {A} k (l : list A) :
  removelast (skipn k l) = skipn k (removelast l).
Proof.
  revert l; induction k as [|k IH]; intros l; [reflexivity|].
  destruct l as [|x l]; [reflexivity|].
  destruct l as [|y l]; [now destruct k|].
  change (removelast (x :: y :: l)) with (x :: removelast (y :: l)).
  cbn [skipn]. apply IH.
Qed.

Lemma skipn_zip_with {A B C} (f : A -> B -> C) k : forall xs ys,
  skipn k (zip_with f xs ys) = zip_with f (skipn k xs) (skipn k ys).
Proof.
  induction k as [|k IH]; intros [|x xs] [|y ys]; simpl; auto.
  - now destruct (skipn k xs).
Qed.

Lemma skipn_succ_tl {A} k (l : list A) : skipn (S k) l = skipn k (tl l).
Proof. destruct l; [now destruct k|reflexivity]. Qed.

Lemma tl_skipn {A} k (l : list A) : tl (skipn k l) = skipn k (tl l).
Proof.
  revert l; induction k as [|k IH]; intros l; [reflexivity|].
  rewrite !skipn_succ_tl. apply IH.
Qed.

Lemma running_from_step acc (x : list F) :
  running_from acc x = zip_with fadd (removelast (acc :: running_from acc x)) x.
Proof.
  revert acc; induction x as [|a x IH]; intros acc; [reflexivity|].
  cbn [running_from].
  change (removelast (acc :: fadd acc a :: running_from (fadd acc a) x))
    with (acc :: removelast (fadd acc a :: running_from (fadd acc a) x)).
  cbn [zip_with]. f_equal. apply IH.
Qed.

(** Every running sum but the first is the one before plus the next term. *)
Lemma running_sum_step (x : list F) :
  tl (running_sum x) = zip_with fadd (removelast (running_sum x)) (tl x).
Proof.
  destruct x as [|a x]; [reflexivity|].
  cbn [running_sum tl]. apply running_from_step.
Qed.

(** X6: every column of the paths is a random walk without drift: the
    series [lead] is, term by term, the lagged series [lag] plus the next
    normal draw, the first 51 draws of the column serving the burn-in and
    the first lagged value. *)
Theorem paths_random_walk n b rng e j :
  0 < n -> 0 <= b -> (j < Z.to_nat b)%nat ->
  let y := draws normal_stream n b rng e in
  col j (lead (paths y))
  = zip_with fadd (col j (lag (paths y))) (skipn 51 (col j y))
  /\ length (col j (lag (paths y))) = Z.to_nat (n - 1)
  /\ length (skipn 51 (col j y)) = Z.to_nat (n - 1).
Proof.
  intros Hn Hb Hj y.
  assert (Hy : shaped (Z.to_nat b) y) by apply shaped_draws.
  assert (Hl : length y = Z.to_nat (n + 50)) by apply length_draws.
  split; [|split].
  - unfold lead, lag.
    rewrite col_tl, col_removelast, (col_paths (Z.to_nat b)) by assumption.
    rewrite removelast_skipn, tl_skipn, running_sum_step.
    rewrite (skipn_succ_tl 50 (col j y)).
    apply skipn_zip_with.
  - unfold lag. rewrite col_length, length_removelast, length_paths, Hl. lia.
  - rewrite length_skipn, col_length, Hl. lia.
Qed.

End GeneratorFacts.

Lemma adf_simulation_accepts_witness :
  fst (adf_simulation demo_stream pinv_column 0 "c" 2 None demo_engine)
  = Raise ValueError
  /\ exists v,
       fst (adf_simulation demo_stream pinv_column 0 "nc" 2 None demo_engine) = Ok v
       /\ length v = 2%nat.
Proof.
  split.
  - apply (adf_simulation_accepts demo_stream pinv_column 0 "c" 2 None demo_engine).
    reflexivity.
  - apply (adf_simulation_accepts demo_stream pinv_column 0 "nc" 2 None demo_engine).
    reflexivity.
Defined.

Lemma adf_simulation_columns_witness :
  exists v,
    fst (adf_simulation demo_stream pinv_column 3 "c" 2 (Some 0%nat) demo_engine1)
    = Ok v /\ length v = 2%nat.
Proof.
  destruct (adf_simulation_columns demo_stream pinv_column 3 "c" 2
              (Some 0%nat) demo_engine1 ltac:(lia) ltac:(lia))
    as [z [_ Hres]].
  eexists. split; [exact Hres|reflexivity].
Defined.

(** In binary64 the value of X4 is not a number. *)
Lemma adf_simulation_one_observation_witness :
  exists v,
    fst (adf_simulation demo_stream pinv_column 1 "ct" 3 None demo_engine) = Ok v
    /\ forallb PrimFloat.is_nan v = true /\ length v = 3%nat.
Proof.
  eexists. split.
  - apply (adf_simulation_one_observation demo_stream pinv_column "ct" 3 None
             demo_engine).
    lia.
  - split; reflexivity.
Defined.

Lemma regressors_rows_of_witness :
  @regressors float _ "ctt" 3
  = Ok (Some [[1; 1; 1]; [1; 2; 4]; [1; 3; 9]]%float).
Proof.
  rewrite (proj2 (proj2 (proj1 (regressors_rows_of (F := float) "ctt" 3)
                           ltac:(lia)))).
  reflexivity.
Defined.

Lemma paths_random_walk_witness :
  col 1 (lead (paths (draws demo_stream 3 2 None demo_engine)))
  = zip_with PrimFloat.add
      (col 1 (lag (paths (draws demo_stream 3 2 None demo_engine))))
      (skipn 51 (col 1 (draws demo_stream 3 2 None demo_engine))).
Proof.
  destruct (paths_random_walk demo_stream 3 2 None demo_engine 1
              ltac:(lia) ltac:(lia) ltac:(vm_compute; lia))
    as [Hwalk _].
  exact Hwalk.
Defined.

(** ** More on the batch runner *)

Section RunnerFacts.
Context {F : Type} `{Arith F}.

Variable normal_stream : Z -> Z -> F.
Variable pinv : list (list F) -> list (list F).

(** The three ways a call with an explicit generator ends. *)
Lemma adf_simulation_some_cases n trend b r e :
  adf_simulation normal_stream pinv n trend b (Some r) e
  = match regressors trend (n - 1) with
    | Raise err => (Raise err, logged (Some r) e)
    | Ok z =>
        if (n + 50 <? 0) || (b <? 0)
        then (Raise ValueError, logged (Some r) e)
        else
          (Ok (block normal_stream pinv z (rs_key (get_gen (Obj r) e))
                 (rs_drawn (get_gen (Obj r) e)) n b),
           {| np_random := np_random e;
              heap := list_set r
                        {| rs_key := rs_key (get_gen (Obj r) e);
                           rs_drawn := rs_drawn (get_gen (Obj r) e) + (n + 50) * b |}
                        (heap e);
              os_entropy := os_entropy e;
              adf_calls := adf_calls e ++ [Some r] |})
    end.
Proof.
  unfold adf_simulation, bind, log_call, ret, lift, standard_normal, logged.
  simpl. destruct (regressors trend (n - 1)) as [z|err]; [|reflexivity].
  destruct ((n + 50 <? 0) || (b <? 0)); reflexivity.
Qed.

Lemma wrapper_block_engine n trend bs r j l e :
  snd (wrapper_block normal_stream pinv n trend bs r j l e)
  = snd (adf_simulation normal_stream pinv n trend
           (if bs <? remaining l then bs else remaining l) (Some r) e).
Proof.
  unfold wrapper_block, bind.
  destruct (adf_simulation normal_stream pinv n trend
              (if bs <? remaining l then bs else remaining l) (Some r) e)
    as [[v|err] e1]; [|reflexivity].
  unfold lift, ret. now destruct (slice_assign _ _ _ _).
Qed.

(** *** The budget *)

Lemma block_size_small M n :
  0 < n -> - (8 * n) < 2 ^ 20 * M < 8 * n -> block_size M n = Ok 0.
Proof.
  intros Hn HM. unfold block_size.
  assert (E : (n =? 0) = false) by (apply Z.eqb_neq; lia). rewrite E. f_equal.
  destruct (Z.le_gt_cases 0 (2 ^ 20 * M)) as [Hpos|Hneg].
  - apply Z.quot_small. lia.
  - replace (2 ^ 20 * M) with (- (- (2 ^ 20 * M))) by lia.
    rewrite Z.quot_opp_l by lia. rewrite Z.quot_small by lia. reflexivity.
Qed.

Lemma block_size_below M n :
  0 < n -> 2 ^ 20 * M <= - (8 * n) ->
  exists bs, block_size M n = Ok bs /\ bs < 0.
Proof.
  intros Hn HM. unfold block_size.
  assert (E : (n =? 0) = false) by (apply Z.eqb_neq; lia). rewrite E.
  eexists. split; [reflexivity|].
  replace (2 ^ 20 * M) with (- (- (2 ^ 20 * M))) by lia.
  rewrite Z.quot_opp_l by lia. rewrite Z.quot_div_nonneg by lia.
  assert (1 <= - (2 ^ 20 * M) / (8 * n)) by (apply Z.div_le_lower_bound; lia).
  lia.
Qed.

Lemma wrapper_empty_range M n trend b rng_seed e bs js :
  0 <= b -> block_size M n = Ok bs -> py_range 0 b bs = Ok js -> js = [] ->
  wrapper normal_stream pinv M n trend b rng_seed e
  = (Ok (zeros (Z.to_nat b)),
     {| np_random := np_random e; heap := heap e ++ [seeded rng_seed];
        os_entropy := os_entropy e; adf_calls := adf_calls e |}).
Proof.
  intros Hb Hbs Hjs ->.
  unfold wrapper, bind, RandomState_new, rs_seed, lift, np_zeros, set_gen.
  assert (E : (b <? 0) = false) by (apply Z.ltb_ge; lia).
  cbn [np_random heap os_entropy adf_calls]. rewrite E, Hbs, Hjs.
  cbn [for_each]. unfold ret. cbn [res]. now rewrite list_set_last.
Qed.

(** X7: for a valid length and number of draws the budget decides in three
    ways, on arguments for which line 62 is the integer quotient (both
    products are whole doubles, [exact_budget]).  With
    [8 * n <= 2 ** 20 * MAX_MEMORY_SIZE] the call returns [b] statistics.
    With a smaller budget in absolute value the block size is 0 and [range]
    raises a [ValueError], even for [b = 0].  With a budget of at most
    [- 8 * n / 2 ** 20] the block size is negative, no block is run and [b]
    zeros are returned. *)
Theorem wrapper_budget_cases M n trend b rng_seed e :
  exact_budget M n -> seed_accepted rng_seed ->
  0 < n -> 0 <= b ->
  (8 * n <= 2 ^ 20 * M ->
   exists v,
     fst (wrapper normal_stream pinv M n trend b rng_seed e) = Ok v
     /\ length v = Z.to_nat b)
  /\ (- (8 * n) < 2 ^ 20 * M < 8 * n ->
      fst (wrapper normal_stream pinv M n trend b rng_seed e) = Raise ValueError)
  /\ (2 ^ 20 * M <= - (8 * n) ->
      fst (wrapper normal_stream pinv M n trend b rng_seed e)
      = Ok (zeros (Z.to_nat b))).
Proof.
  intros _ _ Hn Hb. split; [|split].
  - intros HM. destruct (block_size_positive M n Hn HM) as [bs [Hbs Hpos]].
    now apply (wrapper_length normal_stream pinv M n trend b rng_seed e bs).
  - intros HM. pose proof (block_size_small M n Hn HM) as Hbs.
    unfold wrapper, bind, RandomState_new, rs_seed, lift, np_zeros.
    assert (E : (b <? 0) = false) by (apply Z.ltb_ge; lia).
    now rewrite E, Hbs.
  - intros HM. destruct (block_size_below M n Hn HM) as [bs [Hbs Hneg]].
    assert (Hjs : py_range 0 b bs = Ok []).
    { unfold py_range, range_len.
      assert (E0 : (bs =? 0) = false) by (apply Z.eqb_neq; lia).
      assert (E1 : (0 <? bs) = false) by (apply Z.ltb_ge; lia).
      assert (E2 : (b <? 0) = false) by (apply Z.ltb_ge; lia).
      now rewrite E0, E1, E2, andb_false_r. }
    now rewrite (wrapper_empty_range M n trend b rng_seed e bs [] Hb Hbs Hjs).
Qed.

(** X8: no draw asked for, no work done: with [b = 0], a length other than
    0 and a block size other than 0, [wrapper] returns the empty vector
    without any call of [adf_simulation]; its generator is allocated and
    seeded, and no deviate is drawn from it. *)
Theorem wrapper_no_draw M n trend rng_seed e bs :
  block_size M n = Ok bs -> bs <> 0 ->
  wrapper normal_stream pinv M n trend 0 rng_seed e
  = (Ok [],
     {| np_random := np_random e;
        heap := heap e ++ [{| rs_key := rng_seed; rs_drawn := 0 |}];
        os_entropy := os_entropy e; adf_calls := adf_calls e |}).
Proof.
  intros Hbs Hne.
  assert (Hjs : py_range 0 0 bs = Ok []).
  { unfold py_range. apply Z.eqb_neq in Hne. rewrite Hne.
    now rewrite range_len_empty. }
  now rewrite (wrapper_empty_range M n trend 0 rng_seed e bs []
                 ltac:(lia) Hbs Hjs).
Qed.

(** *** Any engine *)

Lemma adf_simulation_same n trend b r1 e1 r2 e2 :
  same_source r1 e1 r2 e2 ->
  fst (adf_simulation normal_stream pinv n trend b (Some r1) e1)
  = fst (adf_simulation normal_stream pinv n trend b (Some r2) e2)
  /\ same_source r1 (snd (adf_simulation normal_stream pinv n trend b (Some r1) e1))
       r2 (snd (adf_simulation normal_stream pinv n trend b (Some r2) e2)).
Proof.
  intros [H1 [H2 Hg]]. rewrite !adf_simulation_some_cases, Hg.
  destruct (regressors trend (n - 1)) as [z|err];
    [|split; [reflexivity|split; [|split]; assumption]].
  destruct ((n + 50 <? 0) || (b <? 0));
    [split; [reflexivity|split; [|split]; assumption]|].
  split; [reflexivity|].
  unfold same_source, get_gen. cbn [snd heap].
  rewrite !length_list_set, !nth_list_set by assumption.
  repeat split; assumption.
Qed.

Lemma wrapper_block_same n trend bs r1 e1 r2 e2 j l :
  same_source r1 e1 r2 e2 ->
  fst (wrapper_block normal_stream pinv n trend bs r1 j l e1)
  = fst (wrapper_block normal_stream pinv n trend bs r2 j l e2)
  /\ same_source r1 (snd (wrapper_block normal_stream pinv n trend bs r1 j l e1))
       r2 (snd (wrapper_block normal_stream pinv n trend bs r2 j l e2)).
Proof.
  intros Hs. rewrite !wrapper_block_engine.
  destruct (adf_simulation_same n trend
              (if bs <? remaining l then bs else remaining l) r1 e1 r2 e2 Hs)
    as [Hf Hpost].
  split; [|exact Hpost].
  unfold wrapper_block, bind.
  destruct (adf_simulation normal_stream pinv n trend
              (if bs <? remaining l then bs else remaining l) (Some r1) e1)
    as [[v1|err1] e1'];
    destruct (adf_simulation normal_stream pinv n trend
                (if bs <? remaining l then bs else remaining l) (Some r2) e2)
      as [[v2|err2] e2']; cbn [fst] in Hf; try discriminate.
  - injection Hf as <-. unfold lift, ret.
    now destruct (slice_assign _ _ _ _).
  - injection Hf as <-. reflexivity.
Qed.

Lemma wrapper_loop_same n trend bs r1 r2 : forall js l e1 e2,
  same_source r1 e1 r2 e2 ->
  fst (for_each js (wrapper_block normal_stream pinv n trend bs r1) l e1)
  = fst (for_each js (wrapper_block normal_stream pinv n trend bs r2) l e2).
Proof.
  induction js as [|j js IH]; intros l e1 e2 Hs; [reflexivity|].
  cbn [for_each]. unfold bind.
  destruct (wrapper_block_same n trend bs r1 e1 r2 e2 j l Hs) as [Hf Hpost].
  destruct (wrapper_block normal_stream pinv n trend bs r1 j l e1)
    as [[l1|err1] e1'];
    destruct (wrapper_block normal_stream pinv n trend bs r2 j l e2)
      as [[l2|err2] e2']; cbn [fst snd] in *; try discriminate.
  - injection Hf as <-. now apply IH.
  - exact Hf.
Qed.

(** X9: what [wrapper] returns, values or error, is the same on every
    engine: it does not depend on numpy's global generator, on the
    [RandomState] objects the engine holds or on the seed of the operating
    system, whatever the arguments. *)
Theorem wrapper_any_engine M n trend b rng_seed e1 e2 :
  fst (wrapper normal_stream pinv M n trend b rng_seed e1)
  = fst (wrapper normal_stream pinv M n trend b rng_seed e2).
Proof.
  unfold wrapper, bind, RandomState_new, rs_seed, lift, set_gen.
  cbn [np_random heap os_entropy adf_calls]. rewrite !list_set_last.
  destruct (np_zeros b) as [res0|err]; [|reflexivity].
  destruct (block_size M n) as [bs|err]; [|reflexivity].
  destruct (py_range 0 b bs) as [js|err]; [|reflexivity].
  match goal with
  | |- context [for_each js ?body1 ?l0 ?a1] =>
      match goal with
      | |- fst _ = fst (match for_each js ?body2 l0 ?a2 with _ => _ end) =>
          pose proof (wrapper_loop_same n trend bs (length (heap e1))
                        (length (heap e2)) js l0 a1 a2) as Hloop;
          destruct (for_each js body1 l0 a1) as [[l1|err1] e1'];
          destruct (for_each js body2 l0 a2) as [[l2|err2] e2']
      end
  end;
    cbn [fst] in Hloop;
    (assert (Hs : same_source (length (heap e1))
                    {| np_random := np_random e1;
                       heap := heap e1 ++ [seeded rng_seed];
                       os_entropy := os_entropy e1; adf_calls := adf_calls e1 |}
                    (length (heap e2))
                    {| np_random := np_random e2;
                       heap := heap e2 ++ [seeded rng_seed];
                       os_entropy := os_entropy e2; adf_calls := adf_calls e2 |})
       by (unfold same_source, get_gen; cbn [heap];
           rewrite !length_app, !nth_last; cbn [length]; repeat split; lia));
    specialize (Hloop Hs); try discriminate.
  - injection Hloop as <-. reflexivity.
  - injection Hloop as <-. reflexivity.
Qed.

(** *** The objects of the engine *)

Lemma adf_simulation_owner h key b n trend e :
  (exists s, heap e = h ++ [s] /\ rs_key s = key) ->
  exists s',
    heap (snd (adf_simulation normal_stream pinv n trend b (Some (length h)) e))
    = h ++ [s'] /\ rs_key s' = key.
Proof.
  intros [s [Hh Hk]]. rewrite adf_simulation_some_cases.
  destruct (regressors trend (n - 1)) as [z|err]; [|now exists s].
  destruct ((n + 50 <? 0) || (b <? 0)); [now exists s|].
  cbn [snd heap]. unfold get_gen. rewrite Hh, nth_last, list_set_last.
  eexists. split; [reflexivity|exact Hk].
Qed.

Lemma adf_simulation_entropy n trend b r e :
  os_entropy (snd (adf_simulation normal_stream pinv n trend b (Some r) e))
  = os_entropy e.
Proof.
  rewrite adf_simulation_some_cases.
  destruct (regressors trend (n - 1)) as [z|err]; [|reflexivity].
  destruct ((n + 50 <? 0) || (b <? 0)); reflexivity.
Qed.

Lemma wrapper_loop_owner h key n trend bs : forall js l e,
  (exists s, heap e = h ++ [s] /\ rs_key s = key) ->
  exists s',
    heap (snd (for_each js (wrapper_block normal_stream pinv n trend bs (length h)) l e))
    = h ++ [s'] /\ rs_key s' = key.
Proof.
  induction js as [|j js IH]; intros l e Hown; [exact Hown|].
  cbn [for_each]. unfold bind.
  pose proof (wrapper_block_engine n trend bs (length h) j l e) as He.
  pose proof (adf_simulation_owner h key
                (if bs <? remaining l then bs else remaining l) n trend e Hown)
    as Hown'.
  rewrite <- He in Hown'.
  destruct (wrapper_block normal_stream pinv n trend bs (length h) j l e)
    as [[l1|err] e1]; cbn [snd] in *; [now apply IH|exact Hown'].
Qed.

Lemma wrapper_loop_entropy n trend bs r : forall js l e,
  os_entropy (snd (for_each js (wrapper_block normal_stream pinv n trend bs r) l e))
  = os_entropy e.
Proof.
  induction js as [|j js IH]; intros l e; [reflexivity|].
  cbn [for_each]. unfold bind.
  pose proof (wrapper_block_engine n trend bs r j l e) as He.
  pose proof (adf_simulation_entropy n trend
                (if bs <? remaining l then bs else remaining l) r e) as Hent.
  rewrite <- He in Hent.
  destruct (wrapper_block normal_stream pinv n trend bs r j l e)
    as [[l1|err] e1]; cbn [snd] in *; [now rewrite IH|exact Hent].
Qed.

(** X10: for a seed the generator accepts, whatever the other arguments,
    and whether it returns or raises, [wrapper] leaves the engine with
    exactly one more [RandomState] object, its own, still on the stream of
    [rng_seed]; the objects the engine already held are unchanged. *)
Theorem wrapper_frame M n trend b rng_seed e :
  seed_accepted rng_seed ->
  exists s,
    heap (snd (wrapper normal_stream pinv M n trend b rng_seed e)) = heap e ++ [s]
    /\ rs_key s = rng_seed
    /\ os_entropy (snd (wrapper normal_stream pinv M n trend b rng_seed e))
       = os_entropy e.
Proof.
  intros _.
  remember (snd (wrapper normal_stream pinv M n trend b rng_seed e)) as e' eqn:He'.
  unfold wrapper, bind, RandomState_new, rs_seed, lift, set_gen in He'.
  cbn [np_random heap os_entropy adf_calls] in He'. rewrite list_set_last in He'.
  destruct (np_zeros b) as [res0|err];
    [|subst e'; exists (seeded rng_seed); repeat split].
  destruct (block_size M n) as [bs|err];
    [|subst e'; exists (seeded rng_seed); repeat split].
  destruct (py_range 0 b bs) as [js|err];
    [|subst e'; exists (seeded rng_seed); repeat split].
  match type of He' with
  | context [for_each js ?body ?l0 ?e0] =>
      destruct (wrapper_loop_owner (heap e) rng_seed n trend bs js l0 e0)
        as [s [Hh Hk]];
        [exists (seeded rng_seed); split; reflexivity|];
      pose proof (wrapper_loop_entropy n trend bs (length (heap e)) js l0 e0)
        as Hent;
      destruct (for_each js body l0 e0) as [[l'|err] e1]
  end; subst e'; cbn [snd] in *; exists s; repeat split; assumption.
Qed.

(** *** The memory of a block *)

(** X11: one block is an array of [n + 50] rows and [min bs remaining]
    columns, drawn from the generator [wrapper] holds.  The block size
    bounds the columns so that [n] rows of doubles fit the budget; the 50
    rows of the burn-in come on top, 400 bytes a column. *)
Theorem wrapper_block_memory M n trend bs r j l e :
  0 < n -> block_size M n = Ok bs -> 0 < bs -> 0 <= remaining l ->
  (r < length (heap e))%nat ->
  rs_drawn (get_gen (Obj r)
              (snd (wrapper_block normal_stream pinv n trend bs r j l e)))
  = rs_drawn (get_gen (Obj r) e) + (n + 50) * Z.min bs (remaining l)
  /\ 8 * (n * Z.min bs (remaining l)) <= 2 ^ 20 * M
  /\ 8 * ((n + 50) * Z.min bs (remaining l)) <= 2 ^ 20 * M + 400 * bs.
Proof.
  intros Hn Hbs Hpos Hrem Hr.
  assert (E : (if bs <? remaining l then bs else remaining l)
              = Z.min bs (remaining l))
    by (destruct (Z.ltb_spec bs (remaining l)); lia).
  split.
  - rewrite wrapper_block_engine, E.
    destruct (regressors_valid (F := F) trend (n - 1)) as [z Hz]; [lia|].
    rewrite (adf_simulation_some normal_stream pinv n trend _ r e z)
      by (assumption || lia).
    unfold get_gen. cbn [snd heap]. now rewrite nth_list_set.
  - assert (E0 : (n =? 0) = false) by (apply Z.eqb_neq; lia).
    assert (Hq : 2 ^ 20 * M ÷ (8 * n) = bs)
      by (unfold block_size in Hbs; rewrite E0 in Hbs; congruence).
    clear Hbs. rename Hq into Hbs.
    assert (HM : 0 <= 2 ^ 20 * M).
    { destruct (Z.le_gt_cases 0 (2 ^ 20 * M)) as [Hp|Hneg]; [exact Hp|].
      exfalso.
      assert (2 ^ 20 * M ÷ (8 * n) <= 0); [|lia].
      replace (2 ^ 20 * M) with (- (- (2 ^ 20 * M))) by lia.
      rewrite Z.quot_opp_l by lia.
      assert (0 <= - (2 ^ 20 * M) ÷ (8 * n)) by (apply Z.quot_pos; lia).
      lia. }
    rewrite Z.quot_div_nonneg in Hbs by lia.
    pose proof (Z.mul_div_le (2 ^ 20 * M) (8 * n) ltac:(lia)) as Hle.
    rewrite Hbs in Hle.
    assert (Hmin : 0 <= Z.min bs (remaining l) <= bs) by lia.
    split; nia.
Qed.

End RunnerFacts.

Lemma wrapper_budget_cases_witness :
  fst (wrapper demo_stream pinv_column 0 3 "c" 2 0 demo_engine) = Raise ValueError
  /\ fst (wrapper demo_stream pinv_column (-1) 3 "c" 2 0 demo_engine)
     = Ok (zeros 2).
Proof.
  split.
  - apply (wrapper_budget_cases demo_stream pinv_column 0 3 "c" 2 0 demo_engine);
      unfold exact_budget, seed_accepted; lia.
  - apply (wrapper_budget_cases demo_stream pinv_column (-1) 3 "c" 2 0 demo_engine);
      unfold exact_budget, seed_accepted; lia.
Defined.

Lemma wrapper_frame_witness :
  fst (wrapper demo_stream pinv_column 100 3 "c" (-1) 7 demo_engine)
  = Raise ValueError
  /\ exists s,
       heap (snd (wrapper demo_stream pinv_column 100 3 "c" (-1) 7 demo_engine))
       = heap demo_engine ++ [s]
       /\ rs_key s = 7.
Proof.
  split; [reflexivity|].
  destruct (wrapper_frame demo_stream pinv_column 100 3 "c" (-1) 7 demo_engine)
    as [s [Hheap [Hkey _]]].
  - unfold seed_accepted; lia.
  - exists s. split; assumption.
Defined.

Lemma wrapper_no_draw_witness :
  fst (wrapper demo_stream pinv_column 100 3 "c" 0 7 demo_engine) = Ok [].
Proof.
  rewrite (wrapper_no_draw demo_stream pinv_column 100 3 "c" 7 demo_engine
             4369066 eq_refl ltac:(lia)).
  reflexivity.
Defined.

Lemma wrapper_block_memory_witness :
  rs_drawn (get_gen (Obj 0)
              (snd (wrapper_block demo_stream pinv_column 3 "nc" 4369066 0 0
                      {| res := zeros 2; finished := 0; remaining := 2 |}
                      demo_engine1)))
  = 0 + (3 + 50) * Z.min 4369066 2.
Proof.
  apply (wrapper_block_memory demo_stream pinv_column 100 3 "nc" 4369066 0 0
           {| res := zeros 2; finished := 0; remaining := 2 |} demo_engine1
           ltac:(lia) eq_refl ltac:(lia) ltac:(cbn; lia) ltac:(cbn; lia)).
Defined.

(** ** More on the driver *)

Lemma list_set_beyond {A} (r : nat) (v : A) (l : list A) :
  (length l <= r)%nat -> list_set r v l = l.
Proof.
  revert r; induction l as [|x l IH]; intros [|r] Hr; simpl in *;
    try reflexivity; try lia.
  f_equal. apply IH. lia.
Qed.

Lemma string_length_append (a s : string) :
  String.length (a ++ s) = (String.length a + String.length s)%nat.
Proof. induction a as [|c a IH]; simpl; [reflexivity|]. now rewrite IH. Qed.

Lemma append_suffix_inj (s : string) : forall a b : string,
  (a ++ s = b ++ s)%string -> a = b.
Proof.
  induction a as [|c a IH]; intros [|c' b] Heq; simpl in Heq.
  - reflexivity.
  - apply (f_equal String.length) in Heq. simpl in Heq.
    rewrite string_length_append in Heq. lia.
  - apply (f_equal String.length) in Heq. simpl in Heq.
    rewrite string_length_append in Heq. lia.
  - injection Heq as -> Heq. f_equal. now apply IH.
Qed.

Lemma filename_of_inj tr1 tr2 : filename_of tr1 = filename_of tr2 -> tr1 = tr2.
Proof.
  unfold filename_of. simpl. intros Heq.
  injection Heq as Heq. now apply (append_suffix_inj ".npz").
Qed.

Lemma find_filter {A} (p q : A -> bool) (l : list A) :
  (forall x, p x = true -> q x = true) -> find p (filter q l) = find p l.
Proof.
  intros Hpq. induction l as [|x l IH]; [reflexivity|]. simpl.
  destruct (q x) eqn:Hq; simpl.
  - destruct (p x); [reflexivity|exact IH].
  - destruct (p x) eqn:Hp; [|exact IH].
    rewrite (Hpq x Hp) in Hq. discriminate.
Qed.

Section PoolFacts.
Context {F : Type} `{Float64 F}.

Variable normal_stream : Z -> Z -> F.
Variable pinv : list (list F) -> list (list F).
Variable percentile : list F -> list F -> list F.
Variable int_stream : Z -> nat -> Z.
Variable engine : Engine.
Variable cfg : Config.

Local Abbreviation run := (run_task normal_stream pinv engine cfg).
Local Abbreviation sds := (seeds int_stream cfg).
Local Abbreviation one_round :=
  (round normal_stream pinv percentile int_stream engine cfg).

(** *** What a round writes *)

Lemma load_disk name (d d' : Driver F) :
  disk d' = disk d -> load name d' = load name d.
Proof. intros E. unfold load. now rewrite E. Qed.

Lemma load_savez_other name name' (a : artifact F) (d : Driver F) :
  name' <> name -> load name' (snd (savez name a d)) = load name' d.
Proof.
  intros Hne. unfold load, savez. cbn [snd disk find fst].
  assert (E : String.eqb name name' = false) by (apply String.eqb_neq; congruence).
  rewrite E, find_filter; [reflexivity|].
  intros x Hx. apply String.eqb_eq in Hx.
  apply negb_true_iff, String.eqb_neq. congruence.
Qed.

Lemma map_async_disk view ts (d : Driver F) :
  disk (snd (map_async view ts d)) = disk d.
Proof. reflexivity. Qed.

Lemma get_disk view ids ts (d : Driver F) :
  disk (snd (get normal_stream pinv engine cfg view ids ts d)) = disk d.
Proof. unfold get. now destruct (mapM run ts). Qed.

Lemma clear_cache_disk client view (d : Driver F) :
  disk (snd (clear_cache client view d)) = disk d.
Proof. unfold clear_cache. now destruct (outstanding (get_client rc d)). Qed.

(** The state a round ends in, step by step. *)
Lemma round_steps tr i t results (d : Driver F) :
  exists ids d1 d2,
    map_async lview (map_async_args cfg t tr sds) d = (Ok ids, d1)
    /\ disk d1 = disk d
    /\ disk d2 = disk d
    /\ ((exists err,
           one_round tr (i, t) results d = (Raise err, d2))
        \/ (exists d3 results' a,
              outstanding (get_client rc d2) = []
              /\ d3 = purge rc lview d2
              /\ one_round tr (i, t) results d
                 = (Ok results', snd (savez (filename_of tr) a d3)))
        \/ (exists err,
              outstanding (get_client rc d2) = []
              /\ one_round tr (i, t) results d
                 = (Raise err, purge rc lview d2))).
Proof.
  unfold round, bind.
  destruct (map_async lview (map_async_args cfg t tr sds) d)
    as [[ids|err] d1] eqn:H1; [|discriminate H1].
  pose proof (map_async_disk lview (map_async_args cfg t tr sds) d) as D1.
  rewrite H1 in D1. cbn [snd] in D1.
  pose proof (get_disk lview ids (map_async_args cfg t tr sds) d1) as D2.
  destruct (get normal_stream pinv engine cfg lview ids
              (map_async_args cfg t tr sds) d1) as [[out|err] d2];
    cbn [snd] in D2.
  - exists ids, d1, d2. split; [reflexivity|]. split; [exact D1|].
    split; [congruence|].
    unfold clear_cache.
    destruct (outstanding (get_client rc d2)) eqn:Hout.
    + unfold lift, ret.
      destruct (np_array_T (quantiles percentile out)) as [a|err].
      * destruct (assign_length cfg results i a) as [results'|err].
        -- right. left. eexists _, results', _.
           split; [reflexivity|]. split; reflexivity.
        -- right. right. exists err. split; reflexivity.
      * right. right. exists err. split; reflexivity.
    + left. eexists. reflexivity.
  - exists ids, d1, d2. split; [reflexivity|]. split; [exact D1|].
    split; [congruence|]. left. eexists. reflexivity.
Qed.


Lemma get_client_purge (c v : nat) (d : Driver F) :
  let x := get_client c (purge c v d) in
  c_results x = [] /\ c_metadata x = [] /\ c_history x = []
  /\ digest_history x = [] /\ controller_db x = []
  /\ outstanding x = outstanding (get_client c d).
Proof.
  unfold purge.
  assert (Hg : forall (y : View F) (d0 : Driver F),
             get_client c (set_view v y d0) = get_client c d0) by reflexivity.
  rewrite Hg.
  destruct (Nat.lt_ge_cases c (length (clients d))) as [Hc|Hc].
  - rewrite get_client_set by assumption. cbn. repeat split.
  - unfold get_client at 1, set_client. cbn [clients].
    rewrite list_set_beyond by assumption.
    unfold get_client. rewrite !nth_overflow by assumption. cbn. repeat split.
Qed.

Lemma get_view_purge (c v : nat) (d : Driver F) :
  let x := get_view v (purge c v d) in v_results x = [] /\ v_history x = [].
Proof.
  unfold purge, get_view, set_view. cbn [views set_client].
  destruct (Nat.lt_ge_cases v (length (views d))) as [Hv|Hv].
  - rewrite nth_list_set by assumption. split; reflexivity.
  - rewrite list_set_beyond, nth_overflow by assumption. split; reflexivity.
Qed.

(** X13: the file is written last.  A task that raises makes the steps
    before the save raise (its error surfaces at [res.get()]); and when
    those steps raise, for this or another reason (the assertion of
    [clear_cache], the shapes at line 165), the round raises with them and
    [savez] is not reached: the files are those of before the round. *)
Theorem round_raise_before_save tr i t results (d : Driver F) :
  (forall err, mapM run (map_async_args cfg t tr sds) = Raise err ->
     exists err',
       fst (round_table normal_stream pinv percentile int_stream engine cfg
              tr (i, t) results d) = Raise err')
  /\ (forall err,
        fst (round_table normal_stream pinv percentile int_stream engine cfg
               tr (i, t) results d) = Raise err ->
        fst (one_round tr (i, t) results d) = Raise err
        /\ disk (snd (one_round tr (i, t) results d)) = disk d).
Proof.
  split.
  - intros err Herr. exists err. unfold round_table, bind.
    destruct (map_async lview (map_async_args cfg t tr sds) d)
      as [[ids|e1] d1] eqn:H1; [|discriminate H1].
    unfold get. rewrite Herr. reflexivity.
  - intros err Herr.
    assert (Hfst : fst (one_round tr (i, t) results d) = Raise err).
    { revert Herr. unfold round_table, round, bind.
      destruct (map_async lview (map_async_args cfg t tr sds) d)
        as [[ids|e1] d1]; [|auto].
      destruct (get normal_stream pinv engine cfg lview ids
                  (map_async_args cfg t tr sds) d1) as [[out|e2] d2]; [|auto].
      destruct (clear_cache rc lview d2) as [[[]|e3] d3]; [|auto].
      destruct (lift (np_array_T (quantiles percentile out)) d3)
        as [[a|e4] d4]; [|auto].
      destruct (lift (assign_length cfg results i a) d4) as [[r|e5] d5];
        [discriminate|auto]. }
    split; [exact Hfst|].
    destruct (round_steps tr i t results d)
      as [ids [d1 [d2 [_ [_ [D2 [[e Hr]|[[d3 [r [a [_ [_ Hr]]]]]|[e [_ Hr]]]]]]]]]];
      rewrite Hr in *; cbn [fst snd] in *.
    + exact D2.
    + discriminate Hfst.
    + exact D2.
Qed.

(** X14: whatever the state before it, after a round that completes the
    client [rc] has no task outstanding, and its results, metadata, history,
    digest history and controller database are empty, as are the results
    and the history of the load-balanced view. *)
Theorem round_clears_caches tr i t results results' (d : Driver F) :
  fst (one_round tr (i, t) results d) = Ok results' ->
  let d' := snd (one_round tr (i, t) results d) in
  outstanding (get_client rc d') = []
  /\ c_results (get_client rc d') = []
  /\ c_metadata (get_client rc d') = []
  /\ c_history (get_client rc d') = []
  /\ digest_history (get_client rc d') = []
  /\ controller_db (get_client rc d') = []
  /\ v_results (get_view lview d') = []
  /\ v_history (get_view lview d') = [].
Proof.
  intros Hok.
  destruct (round_steps tr i t results d)
    as [ids [d1 [d2 [_ [_ [_ [[e Hr]|[[d3 [r [a [Hout [-> Hr]]]]]|[e [_ Hr]]]]]]]]]];
    rewrite Hr in *; cbn [fst snd] in *; try discriminate Hok.
  assert (Hc : forall c, get_client c (snd (savez (filename_of tr) a (purge rc lview d2)))
                         = get_client c (purge rc lview d2)) by reflexivity.
  assert (Hw : forall v, get_view v (snd (savez (filename_of tr) a (purge rc lview d2)))
                         = get_view v (purge rc lview d2)) by reflexivity.
  rewrite !Hc, !Hw.
  destruct (get_client_purge rc lview d2) as [R1 [R2 [R3 [R4 [R5 R6]]]]].
  destruct (get_view_purge rc lview d2) as [V1 V2].
  cbv zeta in R1, R2, R3, R4, R5, R6, V1, V2.
  rewrite R6, Hout. repeat split; assumption.
Qed.

Lemma round_other_files tr name it results (d : Driver F) :
  name <> filename_of tr ->
  load name (snd (one_round tr it results d)) = load name d.
Proof.
  intros Hne. destruct it as [i t].
  destruct (round_steps tr i t results d)
    as [ids [d1 [d2 [_ [_ [D2 [[e Hr]|[[d3 [r [a [_ [-> Hr]]]]]|[e [_ Hr]]]]]]]]]];
    rewrite Hr; cbn [snd].
  - now apply load_disk.
  - rewrite load_savez_other by assumption. now apply load_disk.
  - now apply load_disk.
Qed.

Lemma rounds_other_files tr name : name <> filename_of tr ->
  forall its results (d : Driver F),
    load name (snd (rounds normal_stream pinv percentile int_stream engine cfg
                      tr its results d)) = load name d.
Proof.
  intros Hne. unfold rounds. induction its as [|it its IH]; intros results d.
  - reflexivity.
  - cbn [for_each]. unfold bind.
    pose proof (round_other_files tr name it results d Hne) as Hr.
    destruct (one_round tr it results d) as [[r|e] d1]; cbn [snd] in Hr.
    + now rewrite IH.
    + exact Hr.
Qed.

Hypothesis percentile_length :
  forall x q, length (percentile x q) = length q.

Local Abbreviation table :=
  (table_after normal_stream pinv percentile int_stream engine cfg).
(** X15: with lengths the memory budget admits, at least one replication
    and an idle client, the whole loop of lines 135-168 runs to its end
    without raising; the client is idle again; for every trend the file
    [adf_z_<trend>.npz] holds the trend, the complete table of that trend,
    the percentiles and [T]; and a file of any other name is as it was
    before the run. *)
Theorem driver_files (d0 : Driver F) :
  valid_config cfg -> idle d0 -> (0 < length (T cfg))%nat ->
  exists d,
    driver normal_stream pinv percentile int_stream engine cfg d0 = (Ok tt, d)
    /\ idle d
    /\ (forall tr, In tr (trends cfg) ->
          load (filename_of tr) d
          = Some {| a_trend := tr; a_results := table tr (length (T cfg));
                    a_percentiles := percentiles; a_T := T cfg |})
    /\ (forall name, (forall tr, In tr (trends cfg) -> name <> filename_of tr) ->
          load name d = load name d0).
Proof.
  intros Hv Hidle Hm. unfold driver. revert d0 Hidle.
  induction (trends cfg) as [|tr trs IH]; intros d0 Hidle.
  - exists d0. split; [reflexivity|]. split; [assumption|].
    split; [intros tr []|reflexivity].
  - destruct (driver_trend_run normal_stream pinv percentile int_stream engine
                cfg percentile_length tr d0 Hv Hidle Hm)
      as [d1 [Hrun [Hidle1 Hload1]]].
    destruct (IH d1 Hidle1) as [d [Hloop [Hidle' [Hfiles Hother]]]].
    exists d. cbn [for_each]. unfold bind at 1. unfold bind at 1.
    rewrite Hrun. unfold ret at 1. split; [exact Hloop|].
    split; [assumption|]. split.
    + intros tr' Hin.
      destruct (in_dec string_dec tr' trs) as [Hin'|Hnin]; [now apply Hfiles|].
      destruct Hin as [<-|Hin]; [|contradiction].
      rewrite Hother; [exact Hload1|].
      intros tr' Hin' Heq. apply filename_of_inj in Heq. congruence.
    + intros name Hname. rewrite Hother by (intros; apply Hname; now right).
      pose proof (rounds_other_files tr name (Hname tr (or_introl eq_refl))
                    (enumerate_T cfg) (new_results cfg (length (T cfg))) d0) as Hr.
      unfold driver_trend in Hrun. rewrite Hrun in Hr. exact Hr.
Qed.

End PoolFacts.

Lemma round_raise_before_save_witness :
  (exists err,
     fst (round demo_stream pinv_column first_draw demo_ints demo_engine
            negative_draws_config "nc" (0%nat, 3) [] demo_driver) = Raise err)
  /\ disk (snd (round demo_stream pinv_column first_draw demo_ints demo_engine
                  negative_draws_config "nc" (0%nat, 3) [] demo_driver))
     = disk demo_driver.
Proof.
  destruct (round_raise_before_save demo_stream pinv_column first_draw
              demo_ints demo_engine negative_draws_config "nc" 0%nat 3 []
              demo_driver) as [Hraise Hsave].
  destruct (Hraise ValueError eq_refl) as [err Herr].
  destruct (Hsave err Herr) as [Hfst Hdisk].
  split; [exists err; exact Hfst|exact Hdisk].
Defined.

Lemma round_clears_caches_witness :
  c_history
    (get_client rc
       (snd (round demo_stream pinv_column first_draw demo_ints demo_engine
               demo_config "nc" (0%nat, 3)
               (new_results demo_config 2) demo_driver))) = []
  /\ v_history
       (get_view lview
          (snd (round demo_stream pinv_column first_draw demo_ints demo_engine
                  demo_config "nc" (0%nat, 3)
                  (new_results demo_config 2) demo_driver))) = [].
Proof.
  destruct (round_clears_caches demo_stream pinv_column first_draw demo_ints
              demo_engine demo_config "nc" 0%nat 3 (new_results demo_config 2)
              (fst (match round demo_stream pinv_column first_draw demo_ints
                            demo_engine demo_config "nc" (0%nat, 3)
                            (new_results demo_config 2) demo_driver
                    with (Ok r, _) => (r, tt) | (Raise _, _) => ([], tt) end))
              demo_driver ltac:(vm_compute; reflexivity))
    as [_ [_ [_ [Hh [_ [_ [_ Hv]]]]]]].
  split; [exact Hh|exact Hv].
Defined.

Lemma driver_files_witness :
  exists d,
    driver demo_stream pinv_column first_draw demo_ints demo_engine demo_config
      demo_driver = (Ok tt, d)
    /\ load "adf_z_c.npz" d
       = Some {| a_trend := "c";
                 a_results := table_after demo_stream pinv_column first_draw
                                demo_ints demo_engine demo_config "c" 2;
                 a_percentiles := percentiles; a_T := [3; 2] |}.
Proof.
  destruct (driver_files demo_stream pinv_column first_draw demo_ints
              demo_engine demo_config (fun x q => length_map _ q) demo_driver)
    as [d [Hrun [_ [Hfiles _]]]].
  - split; [repeat constructor; vm_compute; congruence|].
    split; [vm_compute; congruence|vm_compute; lia].
  - split; [vm_compute; lia|reflexivity].
  - vm_compute; lia.
  - exists d. split; [exact Hrun|].
    apply (Hfiles "c"%string). right. left. reflexivity.
Defined.
